(** * brief: section splitting, markup conversion and address parsing

    A shallow embedding of the Go packages [parser], [address], [markup]
    and [cmd] of the brief letter tool, and the properties of the
    section/markup pipeline established on it.

    Go strings are byte sequences: they are modelled as [string] (a list
    of 8-bit [ascii]).  Go slices of lines are lists; a slice expression
    panics when its bounds are out of range, which is kept explicit in
    the [outcome] type.  Go maps are [gmap]s. *)

From Stdlib Require Import ZArith Ascii String List Bool Lia.
From stdpp Require Import base option list gmap strings fin_maps.

Local Open Scope Z_scope.

(** ** Results of Go calls *)

(** A call either returns a value or ends in a run-time panic. *)
Inductive outcome (A : Type) : Type :=
| Returns (a : A)
| Panics.
Arguments Returns {A} a.
Arguments Panics {A}.

Global Instance outcome_ret : MRet outcome := @Returns.

Global Instance outcome_bind : MBind outcome := fun A B f m =>
  match m with
  | Returns a => f a
  | Panics => Panics
  end.

(** A Go function with results [(T, error)]: every such function of the
    program returns either a value with a nil error, or the zero value
    with an error. *)
Inductive error : Type :=
| ErrNoContent
    (* No line with content found *)
| ErrMultipleContent
    (* More than one line with content found *)
| ErrNoConverter (markupType : string)
    (* No converter configured for markupType %s. Consider installing pandoc. *)
| ErrNoConverterCmd (markupType : string)
    (* No converterCmd defined for markup %s *)
| ErrConvert (markupType converterCmd : string)
    (* Error converting %s markup via %s: %w *)
| ErrContentWithoutAddress (text : string)
    (* Invalid address file %s. content without 'address:': %s *)
| ErrInvalidLine (text : string).
    (* Invalid line in address file %s: %s *)

Inductive result (A : Type) : Type :=
| Value (a : A)
| Error (e : error).
Arguments Value {A} a.
Arguments Error {A} e.

Definition is_error {A} (r : result A) : bool :=
  match r with
  | Value _ => false
  | Error _ => true
  end.

(** The lines of a file: [type BrfLines []string]. *)
Abbreviation BrfLines := (list string).

(** ** The parts of the Go language and library the program uses *)
Module Go.

(** [len(a)] as a Go [int]. *)
Definition len {A} (a : list A) : Z := Z.of_nat (length a).

(** The slice expression [a[lo:hi]].  Go panics unless
    [0 <= lo <= hi <= cap(a)]; every upper bound this program computes
    is at most [len(a)], so the length stands for the capacity. *)
Definition slice {A} (a : list A) (lo hi : Z) : outcome (list A) :=
  if (0 <=? lo) && (lo <=? hi) && (hi <=? len a)
  then Returns (take (Z.to_nat (hi - lo)) (drop (Z.to_nat lo) a))
  else Panics.

(** [a[lo:]] is [a[lo:len(a)]]. *)
Definition slice_from {A} (a : list A) (lo : Z) : outcome (list A) :=
  slice a lo (len a).

Definition byte (n : N) : ascii := ascii_of_N n.

Definition bytes (l : list N) : string :=
  string_of_list_ascii (map byte l).

(** The line feed, Go's ["\n"]. *)
Definition LF : string := bytes [10%N].

(** [strings.HasPrefix] and [strings.HasSuffix]. *)
Fixpoint HasPrefix (s p : string) {struct p} : bool :=
  match p, s with
  | EmptyString, _ => true
  | String c p', String d s' => if Ascii.eqb c d then HasPrefix s' p' else false
  | String _ _, EmptyString => false
  end.

Fixpoint string_drop (n : nat) (s : string) : string :=
  match n, s with
  | O, _ => s
  | S n', String _ s' => string_drop n' s'
  | S _, EmptyString => EmptyString
  end.

Fixpoint string_take (n : nat) (s : string) : string :=
  match n, s with
  | S n', String c s' => String c (string_take n' s')
  | _, _ => EmptyString
  end.

Definition HasSuffix (s p : string) : bool :=
  (String.length p <=? String.length s)%nat &&
  String.eqb (string_drop (String.length s - String.length p) s) p.

(** [strings.TrimPrefix]. *)
Definition TrimPrefix (s p : string) : string :=
  if HasPrefix s p then string_drop (String.length p) s else s.

(** The UTF-8 encodings of the runes for which [unicode.IsSpace] holds:
    tab, LF, VT, FF, CR, space, U+0085, U+00A0, U+1680, U+2000 to
    U+200A, U+2028, U+2029, U+202F, U+205F and U+3000. *)
Definition spaceRunes : list string :=
  map bytes
    [ [9]; [10]; [11]; [12]; [13]; [32];
      [194; 133]; [194; 160];
      [225; 154; 128];
      [226; 128; 128]; [226; 128; 129]; [226; 128; 130]; [226; 128; 131];
      [226; 128; 132]; [226; 128; 133]; [226; 128; 134]; [226; 128; 135];
      [226; 128; 136]; [226; 128; 137]; [226; 128; 138];
      [226; 128; 168]; [226; 128; 169]; [226; 128; 175];
      [226; 129; 159];
      [227; 128; 128] ]%N.

(** Width in bytes of the white-space rune [s] starts with (ends with);
    [0] when the first (last) rune is not white space.  No encoding in
    the table is a prefix or a suffix of another one. *)
Definition leadingSpace (s : string) : nat :=
  match List.find (HasPrefix s) spaceRunes with
  | Some r => String.length r
  | None => O
  end.

Definition trailingSpace (s : string) : nat :=
  match List.find (HasSuffix s) spaceRunes with
  | Some r => String.length r
  | None => O
  end.

(** [strings.TrimLeftFunc(s, unicode.IsSpace)]: at most [length s]
    runes can be removed, which bounds the loop. *)
Fixpoint TrimLeft_loop (n : nat) (s : string) : string :=
  match n with
  | O => s
  | S n' =>
      match leadingSpace s with
      | O => s
      | w => TrimLeft_loop n' (string_drop w s)
      end
  end.

Definition TrimLeftSpace (s : string) : string :=
  TrimLeft_loop (String.length s) s.

Fixpoint TrimRight_loop (n : nat) (s : string) : string :=
  match n with
  | O => s
  | S n' =>
      match trailingSpace s with
      | O => s
      | w => TrimRight_loop n' (string_take (String.length s - w) s)
      end
  end.

Definition TrimRightSpace (s : string) : string :=
  TrimRight_loop (String.length s) s.

(** [strings.TrimSpace]. *)
Definition TrimSpace (s : string) : string :=
  TrimRightSpace (TrimLeftSpace s).

(** [strings.Join]. *)
Fixpoint Join (a : list string) (sep : string) : string :=
  match a with
  | [] => EmptyString
  | [x] => x
  | x :: rest => x +:+ sep +:+ Join rest sep
  end.

(** [strings.SplitN(s, sep, 2)] for a one-byte separator: the text
    before the first separator and the text after it, or [s] alone
    when it holds no separator. *)
Fixpoint cut (sep : ascii) (s : string) : option (string * string) :=
  match s with
  | EmptyString => None
  | String c s' =>
      if Ascii.eqb c sep then Some (EmptyString, s')
      else match cut sep s' with
           | Some (before, after) => Some (String c before, after)
           | None => None
           end
  end.

Definition SplitN2 (s : string) (sep : ascii) : list string :=
  match cut sep s with
  | Some (before, after) => [before; after]
  | None => [s]
  end.

(** [strings.ReplaceAll(s, old, new)] for a non-empty [old]: the
    occurrences of [old] are replaced from left to right, without
    overlap.  Each step consumes at least one byte of [s]. *)
Fixpoint ReplaceAll_loop (n : nat) (s old new : string) : string :=
  match n with
  | O => s
  | S n' =>
      match s with
      | EmptyString => EmptyString
      | String c s' =>
          if HasPrefix s old
          then new +:+ ReplaceAll_loop n' (string_drop (String.length old) s) old new
          else String c (ReplaceAll_loop n' s' old new)
      end
  end.

Definition ReplaceAll (s old new : string) : string :=
  ReplaceAll_loop (String.length s) s old new.

(** A [strings.Replacer] built by [strings.NewReplacer] from pairs
    whose old strings are non-empty: at each position the first pair,
    in argument order, whose old string occurs there is applied. *)
Fixpoint Replacer_loop (n : nat) (pairs : list (string * string)) (s : string)
  : string :=
  match n with
  | O => s
  | S n' =>
      match s with
      | EmptyString => EmptyString
      | String c s' =>
          match List.find (fun p => HasPrefix s (fst p)) pairs with
          | Some (old, new) =>
              new +:+ Replacer_loop n' pairs (string_drop (String.length old) s)
          | None => String c (Replacer_loop n' pairs s')
          end
      end
  end.

Definition Replace (pairs : list (string * string)) (s : string) : string :=
  Replacer_loop (String.length s) pairs s.

(** ** Regular expressions of the program

    The four patterns are anchored and each of their pieces matches a
    class of ASCII bytes disjoint from the next piece, so a match is a
    sequence of maximal runs. *)

Definition in_range (lo hi : N) (c : ascii) : bool :=
  let n := N_of_ascii c in ((lo <=? n) && (n <=? hi))%N.

Definition isUpper : ascii -> bool := in_range 65 90.   (* [A-Z] *)
Definition isLower : ascii -> bool := in_range 97 122.  (* [a-z] *)
Definition isHyphen (c : ascii) : bool := (N_of_ascii c =? 45)%N.
(** [\s] of Go's regexp syntax: tab, LF, FF, CR and space. *)
Definition isReSpace (c : ascii) : bool :=
  match N_of_ascii c with
  | 9 | 10 | 12 | 13 | 32 => true
  | _ => false
  end%N.

(** The longest prefix of bytes in the class, and what follows. *)
Fixpoint span (p : ascii -> bool) (s : string) : string * string :=
  match s with
  | EmptyString => (EmptyString, EmptyString)
  | String c s' =>
      if p c then let (run, rest) := span p s' in (String c run, rest)
      else (EmptyString, s)
  end.

Fixpoint all (p : ascii -> bool) (s : string) : bool :=
  match s with
  | EmptyString => true
  | String c s' => p c && all p s'
  end.

End Go.

(** ** Package parser (parser/brf.go) *)
Module parser.

(** [patternSectionId]: the regular expression [^\.([A-Z]+)\s*$].
    [FindStringSubmatch] yields the group [[A-Z]+] on a match. *)
Definition patternSectionId (line : string) : option string :=
  match line with
  | String "." rest =>
      let (name, tail) := Go.span Go.isUpper rest in
      if negb (String.eqb name EmptyString) && Go.all Go.isReSpace tail
      then Some name else None
  | _ => None
  end.

Record Brf : Type := mkBrf {
  Lines : BrfLines;
  Sections : gmap string BrfLines
}.

Definition NewBrf (lines : BrfLines) : Brf :=
  {| Lines := lines; Sections := ∅ |}.

(** The variables of the loop of [CreateBrf]. *)
Record scan : Type := mkScan {
  currentSection : option string;
  currentSectionStart : Z;
  sections : gmap string BrfLines
}.

(** One iteration of [for idx, line := range brfLines]. *)
Definition CreateBrf_step (brfLines : BrfLines) (idx : Z) (line : string)
    (st : scan) : outcome scan :=
  match patternSectionId line with
  | Some name =>
      secs ← match currentSection st with
             | Some cur =>
                 body ← Go.slice brfLines (currentSectionStart st + 1) idx;
                 mret (<[cur := body]> (sections st))
             | None => mret (sections st)
             end;
      mret {| currentSection := Some name;
              currentSectionStart := idx;
              sections := secs |}
  | None => mret st
  end.

Fixpoint CreateBrf_loop (brfLines : BrfLines) (idx : Z) (rest : BrfLines)
    (st : scan) : outcome scan :=
  match rest with
  | [] => mret st
  | line :: rest' =>
      st' ← CreateBrf_step brfLines idx line st;
      CreateBrf_loop brfLines (idx + 1) rest' st'
  end.

Definition CreateBrf (brfLines : BrfLines) : outcome Brf :=
  let brf := NewBrf brfLines in
  st ← CreateBrf_loop brfLines 0 brfLines
         {| currentSection := None;
            currentSectionStart := -1;
            sections := Sections brf |};
  secs ← match currentSection st with
         | Some cur =>
             body ← Go.slice_from brfLines (currentSectionStart st + 1);
             mret (<[cur := body]> (sections st))
         | None => mret (sections st)
         end;
  mret {| Lines := Lines brf; Sections := secs |}.

End parser.

(** ** Package address (address/parser.go) *)
Module address.

(** A Go map is a reference: the [Fields] of an [Address] point into a
    store of field maps, so that a copy of the struct shares them. *)
Record Address : Type := mkAddress { Fields : nat }.

Global Instance Address_eq_dec : EqDecision Address.
Proof. solve_decision. Defined.

(** The variables of [ReadFromFile], and the field maps allocated so
    far. *)
Record state : Type := mkState {
  store : list (gmap string BrfLines);
  senderAddresses : gmap string Address;
  curAddress : option Address
}.

Definition fieldsOf (st : state) (a : Address) : gmap string BrfLines :=
  default ∅ (store st !! Fields a).

(** One iteration of [for scanner.Scan()], on the line [scanner.Text()]. *)
Definition step (text : string) (st : state) : result state :=
  let line := Go.TrimSpace text in
  if (String.length line =? 0)%nat || Go.HasPrefix line "#" then
    Value st
  else if Go.HasPrefix line "address:" then
    let addressId := Go.TrimSpace (Go.TrimPrefix line "address:") in
    (* new(Address) with Fields = make(map[string]parser.BrfLines) *)
    let cur := {| Fields := length (store st) |} in
    Value {| store := store st ++ [∅];
             senderAddresses := <[addressId := cur]> (senderAddresses st);
             curAddress := Some cur |}
  else
    match curAddress st with
    | None => Error (ErrContentWithoutAddress text)
    | Some cur =>
        match Go.SplitN2 line ":" with
        | [s0; s1] =>
            let k := Go.TrimSpace s0 in
            let v := Go.TrimSpace s1 in
            let fields := fieldsOf st cur in
            (* if curAddress.Fields[k] == nil { ... = make([]string, 0) } *)
            let fields1 :=
              match fields !! k with
              | None => <[k := []]> fields
              | Some _ => fields
              end in
            let fields2 := <[k := default [] (fields1 !! k) ++ [v]]> fields1 in
            Value {| store := <[Fields cur := fields2]> (store st);
                     senderAddresses := senderAddresses st;
                     curAddress := curAddress st |}
        | _ => Error (ErrInvalidLine text)
        end
    end.

Fixpoint scanLines (lines : list string) (st : state) : result state :=
  match lines with
  | [] => Value st
  | text :: rest =>
      match step text st with
      | Value st' => scanLines rest st'
      | Error e => Error e
      end
  end.

Definition initial : state :=
  {| store := []; senderAddresses := ∅; curAddress := None |}.

(** [ReadFromFile] on a file that opens and whose lines the scanner
    delivers as [lines]: the returned map, each [Address] read through
    its reference. *)
Definition ReadFromFile (lines : list string)
  : result (gmap string (gmap string BrfLines)) :=
  match scanLines lines initial with
  | Value st => Value (fieldsOf st <$> senderAddresses st)
  | Error e => Error e
  end.

End address.

(** ** Package config (config/config.go) *)
Module config.

(** Of the fields of [Config], the code below reads the converter
    registry only. *)
Record Config : Type := mkConfig {
  MarkupConverters : gmap string string
}.

(** The index expression [m[k]] of a [map[string]string]: the empty
    string when [k] has no entry. *)
Definition index (m : gmap string string) (k : string) : string :=
  default EmptyString (m !! k).

Section defaults.

(** [os.Getenv] and the path [exec.LookPath] returns (empty when the
    executable is not found). *)
Variable Getenv : string -> string.
Variable LookPath : string -> string.

(** [findExecutable]: [Some] name for a result [(name, nil)], [None] for
    the error "No usable executable found".  The index expression
    [executable[0]] panics on an empty name. *)
Fixpoint findExecutable (executables : list string) : outcome (option string) :=
  match executables with
  | [] => mret None
  | executable :: rest =>
      match executable with
      | EmptyString => Panics
      | String c name =>
          let executableName :=
            if Ascii.eqb c "$" then Getenv name else executable in
          let path := LookPath executableName in
          if negb (String.eqb path EmptyString) then mret (Some executableName)
          else findExecutable rest
      end
  end.

(** [lookPaths]. *)
Definition lookPaths (executables : list string) : gmap string string :=
  fold_left (fun m e => <[e := LookPath e]> m) executables ∅.

(** [findDefaultMarkupConverters]. *)
Definition findDefaultMarkupConverters : gmap string string :=
  let m : gmap string string := ∅ in
  let x := lookPaths ["asciidoctor"; "asciidoc"; "pandoc"] in
  let m :=
    if negb (String.eqb (index x "pandoc") EmptyString) then
      if negb (String.eqb (index x "asciidoctor") EmptyString) then
        <["asciidoc" := "asciidoctor -b docbook5 - | pandoc -f docbook -t latex"]> m
      else if negb (String.eqb (index x "asciidoc") EmptyString) then
        <["asciidoc" := "asciidoc -b docbook5 - | pandoc -f docbook -t latex"]> m
      else m
    else m in
  let m := <["adoc" := index m "asciidoc"]> m in
  if negb (String.eqb (index x "pandoc") EmptyString) then
    <["*" := "pandoc -f %m -t latex"]> m
  else m.

End defaults.

End config.

(** ** Package markup *)
Module markup.

Record Converter : Type := mkConverter {
  markupType : string;
  converterCmd : string
}.

(** [NewConverter].  The statements after the [if] chain of the source
    are unreachable. *)
Definition NewConverter (markupType : string) (cfg : config.Config)
  : result Converter :=
  let registry := config.MarkupConverters cfg in
  if negb (String.eqb (config.index registry markupType) EmptyString) then
    Value {| markupType := markupType;
             converterCmd := config.index registry markupType |}
  else if negb (String.eqb (config.index registry "*") EmptyString) then
    Value {| markupType := markupType;
             converterCmd :=
               Go.ReplaceAll (config.index registry "*") "%m" markupType |}
  else
    Error (ErrNoConverter markupType).

Section Convert.

(** [cmdline.Execute(cmdLine, dir, stdin, stdout, stderr)] runs an
    external command: what it writes to [stdout], or [None] when it
    fails. *)
Variable Execute : string -> string -> string -> option string.

Definition Convert (c : Converter) (lines : list string) : result string :=
  if (String.length (Go.TrimSpace (converterCmd c)) =? 0)%nat then
    Error (ErrNoConverterCmd (markupType c))
  else
    let cmdLine := converterCmd c in
    match Execute cmdLine EmptyString (Go.Join lines Go.LF) with
    | Some stdout => Value stdout
    | None => Error (ErrConvert (markupType c) (converterCmd c))
    end.

End Convert.

End markup.

(** ** Package cmd: the tex command *)
Module cmd.

(** [^\.([a-z]+)\s*$] *)
Definition patternMarkupType (line : string) : option string :=
  match line with
  | String "." rest =>
      let (name, tail) := Go.span Go.isLower rest in
      if negb (String.eqb name EmptyString) && Go.all Go.isReSpace tail
      then Some name else None
  | _ => None
  end.

(** [^-{2,}\s*$] *)
Definition patternMarkupTypeBlockEnd (line : string) : bool :=
  let (hyphens, tail) := Go.span Go.isHyphen line in
  (2 <=? String.length hyphens)%nat && Go.all Go.isReSpace tail.

(** [^\.([a-z]+)-{2,}\s*$] *)
Definition patternMarkupTypeBlockStart (line : string) : option string :=
  match line with
  | String "." rest =>
      let (name, tail) := Go.span Go.isLower rest in
      if negb (String.eqb name EmptyString) && patternMarkupTypeBlockEnd tail
      then Some name else None
  | _ => None
  end.

(** [utfCharReplacer].  The first old string is the byte sequence the
    source file holds between the back quotes (its comment calls it the
    thin space); then the underscore and the caret. *)
Definition utfCharReplacer : list (string * string) :=
  [ (Go.bytes [195; 162; 226; 130; 172; 194; 175]%N, "\,");
    ("_", "\string_");
    ("^", "\string^") ].

(** The line break of LaTeX followed by a line feed: Go's ["\\\\\n"]. *)
Definition texBreak : string := "\\" +:+ Go.LF.

(** The loop of [trimSurroundingEmptyLines]:
    [for idx, line := range brfLines]. *)
Fixpoint trimScan (idx : Z) (rest : BrfLines) (firstNonEmpty lastNonEmpty : Z)
  : Z * Z :=
  match rest with
  | [] => (firstNonEmpty, lastNonEmpty)
  | line :: rest' =>
      if negb (String.eqb (Go.TrimSpace line) EmptyString) then
        trimScan (idx + 1) rest'
          (if firstNonEmpty =? -1 then idx else firstNonEmpty) idx
      else
        trimScan (idx + 1) rest' firstNonEmpty lastNonEmpty
  end.

Definition trimSurroundingEmptyLines (brfLines : BrfLines) : outcome BrfLines :=
  let '(firstNonEmpty, lastNonEmpty) := trimScan 0 brfLines (-1) (-1) in
  Go.slice brfLines firstNonEmpty (lastNonEmpty + 1).

Definition getSingleValue (brfLines : BrfLines) : outcome (result string) :=
  brfLines ← trimSurroundingEmptyLines brfLines;
  match brfLines with
  | [] => mret (Error ErrNoContent)
  | [line] => mret (Value (Go.TrimSpace line))
  | _ :: _ :: _ => mret (Error ErrMultipleContent)
  end.

(** [merge]: both loops store every entry of the map they range over. *)
Definition storeAll (src dst : gmap string string) : gmap string string :=
  map_fold (fun k v m => <[k := v]> m) dst src.

Definition merge (m1 m2 : gmap string string) : gmap string string :=
  storeAll m2 (storeAll m1 ∅).


Section TexCommand.

(** The receiver's [Config] and the external command runner. *)
Variable Config : config.Config.
Variable Execute : string -> string -> string -> option string.

(** A call of [Convert]: the converter and the lines handed to it. *)
Definition call : Type := markup.Converter * list string.

(** The [strings.Builder] of [convertMarkup] and the calls of
    [Convert] made so far, in order. *)
Record writer : Type := mkWriter {
  written : string;
  calls : list call
}.

Definition WriteString (w : writer) (s : string) : writer :=
  {| written := written w +:+ s; calls := calls w |}.

Definition logCall (w : writer) (c : call) : writer :=
  {| written := written w; calls := calls w ++ [c] |}.

(** [for x := i; x < len(a); x++] over [rest = a[x:]]: the index of
    the first block-end line, or [-1]. *)
Fixpoint findBlockEnd (x : Z) (rest : list string) : Z :=
  match rest with
  | [] => -1
  | l :: rest' =>
      if patternMarkupTypeBlockEnd l then x
      else findBlockEnd (x + 1) rest'
  end.

(** The body of the loop of [convertMarkup] at index [i] on the line
    [s = a[i]]: the value of [i] at the end of the body and what has
    been written.  The slice [markupBlock] of the source is filled
    but never read. *)
Definition convertMarkup_body (a : list string) (i : Z) (s : string)
    (b : writer) : outcome (Z * writer) :=
  let sep := Go.LF in
  match patternMarkupTypeBlockStart s with
  | Some markupBlockType =>
      let blockEnd := findBlockEnd i (drop (Z.to_nat i) a) in
      if negb (blockEnd =? -1) then
        match markup.NewConverter markupBlockType Config with
        | Error _ =>
            block ← Go.slice a i blockEnd;
            mret (i, WriteString (WriteString b (Go.Join block sep)) sep)
        | Value c =>
            inner ← Go.slice a (i + 1) (blockEnd - 1);
            let b := logCall b (c, inner) in
            match markup.Convert Execute c inner with
            | Error _ =>
                block ← Go.slice a i blockEnd;
                mret (i, WriteString (WriteString b (Go.Join block sep)) sep)
            | Value r =>
                mret (blockEnd, WriteString (WriteString b r) sep)
            end
        end
      else
        block ← Go.slice_from a i;
        mret (i, WriteString (WriteString b (Go.Join block sep)) sep)
  | None =>
      mret (i, WriteString (WriteString b s) sep)
  end.

(** [for i := 0; i < len(a); i++].  The index grows in every
    iteration, so [len(a)] iterations are enough; [None] stands for
    a loop cut short. *)
Fixpoint convertMarkup_loop (fuel : nat) (a : list string) (i : Z)
    (b : writer) : option (outcome writer) :=
  match a !! Z.to_nat i with
  | None => Some (Returns b)
  | Some s =>
      match fuel with
      | O => None
      | S fuel' =>
          match convertMarkup_body a i s b with
          | Panics => Some Panics
          | Returns (i', b') => convertMarkup_loop fuel' a (i' + 1) b'
          end
      end
  end.

(** [convertMarkup], with the calls of [Convert] it made. *)
Definition convertMarkup (a : list string) : option (outcome writer) :=
  let b := {| written := EmptyString; calls := [] |} in
  match a with
  | [] => Some (Returns b)
  | [s] => Some (Returns (WriteString b s))
  | _ => convertMarkup_loop (length a) a 0 b
  end.

(** The body of the loop of [contentToTemplateInput] for the section
    [k] with lines [v]: the value stored in [r[k]]. *)
Definition sectionToTemplateInput (k : string) (v : BrfLines)
  : option (outcome string) :=
  match trimSurroundingEmptyLines v with
  | Panics => Some Panics
  | Returns v =>
      let rk :=
        if negb (String.eqb k "CONTENT") then
          Some (Returns (Go.Join v texBreak))
        else
          match v with
          | [] => Some (Returns EmptyString)
          | v0 :: v1 =>
              match patternMarkupType v0 with
              | Some sectionMarkupType =>
                  match markup.NewConverter sectionMarkupType Config with
                  | Error _ => Some (Returns (Go.Join v Go.LF))
                  | Value mc =>
                      match markup.Convert Execute mc v1 with
                      | Error _ => Some (Returns (Go.Join v Go.LF))
                      | Value r => Some (Returns r)
                      end
                  end
              | None =>
                  match convertMarkup v with
                  | Some (Returns b) => Some (Returns (written b))
                  | Some Panics => Some Panics
                  | None => None
                  end
              end
          end in
      match rk with
      | Some (Returns s) => Some (Returns (Go.Replace utfCharReplacer s))
      | other => other
      end
  end.

(** [contentToTemplateInput]: the loop over [brf.Sections] stores one
    value per section, so the order of the iteration does not show
    in the result. *)
Definition contentToTemplateInput (brf : parser.Brf)
  : option (outcome (gmap string string)) :=
  map_fold
    (fun k v acc =>
       match acc with
       | Some (Returns r) =>
           match sectionToTemplateInput k v with
           | Some (Returns s) => Some (Returns (<[k := s]> r))
           | Some Panics => Some Panics
           | None => None
           end
       | other => other
       end)
    (Some (Returns ∅)) (parser.Sections brf).


End TexCommand.

End cmd.

(** ** Package cmdline: the tokenizer *)
Module cmdline.

(** The loop of [Parse] ranges over the runes of the command line and
    collects runes in [word]; the model works on the sequence of runes
    [range s] yields, and a token is the sequence of runes that
    [string(word)] converts. *)
Definition rune : Type := N.

Definition quote : rune := 39%N.        (* the single quote *)
Definition doubleQuote : rune := 34%N.  (* the double quote *)
Definition space : rune := 32%N.
Definition tab : rune := 9%N.
Definition pipe : rune := 124%N.

Record Cmd : Type := mkCmd {
  CmdName : list rune;
  Args : list (list rune)
}.

(** [newCmd]: the first token is the name, the other ones the
    arguments. *)
Definition newCmd (tokens : list (list rune)) : Cmd :=
  {| CmdName := match tokens with
                | [] => []
                | name :: _ => name
                end;
     Args := match tokens with
             | _ :: (_ :: _) as args => args
             | _ => []
             end |}.

(** The variables of the loop of [Parse]; [quoteChar] is [0] outside
    quotes. *)
Record state : Type := mkState {
  cmds : list Cmd;
  tokens : list (list rune);
  word : list rune;
  quoteChar : rune
}.

(** One iteration of [for _, c := range s]. *)
Definition step (st : state) (c : rune) : state :=
  if (c =? quote)%N || (c =? doubleQuote)%N then
    {| cmds := cmds st; tokens := tokens st; word := word st;
       quoteChar := if (quoteChar st =? c)%N then 0%N else c |}
  else if (c =? space)%N || (c =? tab)%N then
    if negb (quoteChar st =? 0)%N then
      {| cmds := cmds st; tokens := tokens st; word := word st ++ [c];
         quoteChar := quoteChar st |}
    else if (0 <? length (word st))%nat then
      {| cmds := cmds st; tokens := tokens st ++ [word st]; word := [];
         quoteChar := quoteChar st |}
    else st
  else if (c =? pipe)%N then
    if negb (quoteChar st =? 0)%N then
      {| cmds := cmds st; tokens := tokens st; word := word st ++ [c];
         quoteChar := quoteChar st |}
    else
      {| cmds := cmds st ++ [newCmd (tokens st)]; tokens := []; word := word st;
         quoteChar := quoteChar st |}
  else
    {| cmds := cmds st; tokens := tokens st; word := word st ++ [c];
       quoteChar := quoteChar st |}.

(** What [Parse] does after the loop. *)
Definition finish (st : state) : list Cmd :=
  let tokens :=
    if (0 <? length (word st))%nat then tokens st ++ [word st] else tokens st in
  if (0 <? length tokens)%nat then cmds st ++ [newCmd tokens] else cmds st.

Definition Parse (s : list rune) : list Cmd :=
  finish (fold_left step s
            {| cmds := []; tokens := []; word := []; quoteChar := 0%N |}).

End cmdline.

(** ** Package utils *)
Module utils.

(** [path.Split]: the path up to and including its last slash, and what
    follows. *)
Fixpoint lastIndexByte (i : Z) (s : string) (c : ascii) (found : Z) : Z :=
  match s with
  | EmptyString => found
  | String d rest =>
      lastIndexByte (i + 1) rest c (if Ascii.eqb d c then i else found)
  end.

Definition Split (path : string) : string * string :=
  let i := lastIndexByte 0 path "/" (-1) in
  (Go.string_take (Z.to_nat (i + 1)) path, Go.string_drop (Z.to_nat (i + 1)) path).

(** [path.Ext]: [for i := len(path) - 1; i >= 0 && path[i] != '/'; i--],
    with [n = i + 1]. *)
Fixpoint Ext_loop (n : nat) (path : string) : string :=
  match n with
  | O => EmptyString
  | S i =>
      match String.get i path with
      | Some c =>
          if Ascii.eqb c "/" then EmptyString
          else if Ascii.eqb c "." then Go.string_drop i path
          else Ext_loop i path
      | None => EmptyString
      end
  end.

Definition Ext (path : string) : string := Ext_loop (String.length path) path.

Section DeriveFilePath.

(** [path.Clean], the lexical normal form of a path. *)
Variable Clean : string -> string.

(** [path.Join] of two elements: the non-empty elements separated by a
    slash, cleaned; the empty string when both are empty. *)
Definition Join (a b : string) : string :=
  match a, b with
  | EmptyString, EmptyString => EmptyString
  | EmptyString, _ => Clean b
  | _, _ => Clean (a +:+ "/" +:+ b)
  end.

Definition DeriveFilePath (filePath newExt : string) : string :=
  let (dir, file) := Split filePath in
  let ext := Ext file in
  let basename := Go.string_take (String.length file - String.length ext) file in
  let newExt :=
    if Go.HasPrefix newExt "." then Go.string_drop 1 newExt else newExt in
  Join dir (basename +:+ "." +:+ newExt).

End DeriveFilePath.

End utils.

(** * Vocabulary of the statements *)

(** A line without content: [strings.TrimSpace(line) == ""]. *)
Definition blank (line : string) : Prop := Go.TrimSpace line = EmptyString.

(** A list of lines with content: blank lines, a core that starts and
    ends with a line with content, blank lines. *)
Record trimmed_core (x pre core post : BrfLines) : Prop := {
  core_split : x = pre ++ core ++ post;
  core_pre : Forall blank pre;
  core_post : Forall blank post;
  core_head : exists a t, core = a :: t /\ ~ blank a;
  core_last : exists t b, core = t ++ [b] /\ ~ blank b
}.

(** ** The sections of a document *)

(** The line at index [i] is a section marker with the name [name]. *)
Definition markerAt (lines : BrfLines) (i : nat) (name : string) : Prop :=
  exists line, lines !! i = Some line /\ parser.patternSectionId line = Some name.

(** The lines [lines[i+1:j]], strictly between the indices [i] and [j]. *)
Definition linesBetween (lines : BrfLines) (i j : nat) : BrfLines :=
  take (j - S i) (drop (S i) lines).

(** Among the first [bound] lines, the marker at [i] is the last one
    with the name [name], and its section ends at [j]: no marker lies
    strictly between [i] and [j], and [j] is the next marker or the
    bound. *)
Record rangeIn (lines : BrfLines) (bound : nat) (name : string) (i j : nat)
  : Prop := {
  range_marker : markerAt lines i name;
  range_order : (i < j <= bound)%nat;
  range_body : forall k n, (i < k < j)%nat -> ~ markerAt lines k n;
  range_end : j = bound \/ exists n, markerAt lines j n;
  range_last : forall k, (j <= k < bound)%nat -> ~ markerAt lines k name
}.

(** The section of [name] in the whole document. *)
Definition sectionRange (lines : BrfLines) (name : string) (i j : nat) : Prop :=
  rangeIn lines (length lines) name i j.

(** The map holds the sections of the first [bound] lines. *)
Definition sectionsUpTo (lines : BrfLines) (bound : nat)
    (secs : gmap string BrfLines) : Prop :=
  (forall name body,
     secs !! name = Some body <->
     exists i j, rangeIn lines bound name i j /\ body = linesBetween lines i j)
  /\ (forall name,
        is_Some (secs !! name) <-> exists i, (i < bound)%nat /\ markerAt lines i name).

(** The variables of the loop of [CreateBrf] before the iteration
    [idx]. *)
Definition scanInv (lines : BrfLines) (idx : nat) (st : parser.scan) : Prop :=
  match parser.currentSection st with
  | None =>
      (forall k n, (k < idx)%nat -> ~ markerAt lines k n)
      /\ parser.sections st = ∅
  | Some cur =>
      exists s,
        parser.currentSectionStart st = Z.of_nat s
        /\ (s < idx)%nat
        /\ markerAt lines s cur
        /\ (forall k n, (s < k < idx)%nat -> ~ markerAt lines k n)
        /\ sectionsUpTo lines s (parser.sections st)
  end.

(** ** The lines of an address file *)

(** The text of a line that is neither blank nor a comment, trimmed. *)
Definition content (text : string) : option string :=
  let line := Go.TrimSpace text in
  if String.eqb line EmptyString || Go.HasPrefix line "#" then None
  else Some line.

(** The identifier a line [address: <id>] declares. *)
Definition addressId (text : string) : option string :=
  match content text with
  | Some line =>
      if Go.HasPrefix line "address:"
      then Some (Go.TrimSpace (Go.TrimPrefix line "address:"))
      else None
  | None => None
  end.

(** The key and the value of a line [key: value]: the trimmed texts
    before and after its first colon. *)
Definition keyValue (text : string) : option (string * string) :=
  match content text with
  | Some line =>
      if Go.HasPrefix line "address:" then None
      else match Go.cut ":" line with
           | Some (s0, s1) => Some (Go.TrimSpace s0, Go.TrimSpace s1)
           | None => None
           end
  | None => None
  end.

(** The values the lines [key: value] of a run of lines give to the
    key [k], in the order of the lines. *)
Definition valuesOf (k : string) (seg : list string) : list string :=
  omap (fun text =>
          match keyValue text with
          | Some (k', v) => if decide (k' = k) then Some v else None
          | None => None
          end) seg.

(** The field map a run of lines [key: value] builds. *)
Definition recordOf (seg : list string) (fields : gmap string BrfLines) : Prop :=
  forall k, fields !! k = match valuesOf k seg with
                          | [] => None
                          | vs => Some vs
                          end.


(** ** Written text *)

(** Every line followed by a line feed. *)
Fixpoint linesWithLF (a : list string) : string :=
  match a with
  | [] => EmptyString
  | s :: rest => s +:+ Go.LF +:+ linesWithLF rest
  end.

(** ** Text for LaTeX *)

(** The underscore and the caret as [utfCharReplacer] writes them. *)
Definition texEscape (c : ascii) : string :=
  if Ascii.eqb c "_" then "\string_"
  else if Ascii.eqb c "^" then "\string^"
  else String c EmptyString.

Fixpoint texEscapeAll (s : string) : string :=
  match s with
  | EmptyString => EmptyString
  | String c rest => texEscape c +:+ texEscapeAll rest
  end.

(** The first old string of [utfCharReplacer]. *)
Definition thinSpaceBytes : string :=
  Go.bytes [195; 162; 226; 130; 172; 194; 175]%N.

(** The text [p] occurs somewhere in [s]. *)
Definition occursIn (p s : string) : Prop :=
  exists pre post, s = pre +:+ p +:+ post.

(** The value of a call that returned. *)
Definition returned {A} (r : option (outcome A)) : option A :=
  match r with
  | Some (Returns a) => Some a
  | _ => None
  end.

(** ** Executables and command lines *)

(** The name [findExecutable] looks up for an entry of its list: the
    value of the environment variable for an entry [$VAR]. *)
Definition expandName (Getenv : string -> string) (executable : string) : string :=
  match executable with
  | String c name => if Ascii.eqb c "$" then Getenv name else executable
  | EmptyString => EmptyString
  end.

(** A rune without a meaning for [Parse], and a word of such runes. *)
Definition plainRune (c : cmdline.rune) : Prop :=
  c <> cmdline.quote /\ c <> cmdline.doubleQuote /\ c <> cmdline.space
  /\ c <> cmdline.tab /\ c <> cmdline.pipe.

Definition plainWord (w : list cmdline.rune) : Prop :=
  w <> [] /\ Forall plainRune w.

(** Words separated by one space, and commands separated by a pipe
    symbol between two spaces. *)
Fixpoint joinWords (ws : list (list cmdline.rune)) : list cmdline.rune :=
  match ws with
  | [] => []
  | [w] => w
  | w :: rest => w ++ [cmdline.space] ++ joinWords rest
  end.

Fixpoint joinPipes (cs : list (list (list cmdline.rune))) : list cmdline.rune :=
  match cs with
  | [] => []
  | [c] => joinWords c
  | c :: rest =>
      joinWords c ++ [cmdline.space; cmdline.pipe; cmdline.space] ++ joinPipes rest
  end.

(** The tokens of a list of commands. *)
Definition tokensOf (cs : list cmdline.Cmd) : list (list cmdline.rune) :=
  concat (map (fun c => cmdline.CmdName c :: cmdline.Args c) cs).

(** The runes of a text of ASCII characters. *)
Definition runesOf (s : string) : list cmdline.rune :=
  map N_of_ascii (list_ascii_of_string s).

(** ** File paths *)

(** A text without the byte [c]. *)
Definition without (c : ascii) (s : string) : Prop :=
  Go.all (fun d => negb (Ascii.eqb d c)) s = true.

(** A directory part as [path.Split] returns it: empty, or ending in a
    slash. *)
Definition dirPart (dir : string) : Prop :=
  dir = EmptyString \/ exists d, dir = d +:+ "/".

(** ** Example inputs *)
Module example.

Definition toUpper (c : ascii) : ascii :=
  if Go.isLower c then ascii_of_N (N_of_ascii c - 32) else c.

Fixpoint upcase (s : string) : string :=
  match s with
  | EmptyString => EmptyString
  | String c s' => String (toUpper c) (upcase s')
  end.

(** An external command that writes its input in upper case. *)
Definition upperExecute (cmdLine dir stdin : string) : option string :=
  Some (upcase stdin).

(** A registry with a converter for [md] only. *)
Definition mdConfig : config.Config :=
  {| config.MarkupConverters := {[ "md" := "upper" ]} |}.

Definition mdConverter : markup.Converter :=
  {| markup.markupType := "md"; markup.converterCmd := "upper" |}.

(** The registry [findDefaultMarkupConverters] builds when pandoc is
    installed and neither asciidoctor nor asciidoc is. *)
Definition pandocConfig : config.Config :=
  {| config.MarkupConverters :=
       {[ "adoc" := EmptyString; "*" := "pandoc -f %m -t latex" ]} |}.

(** A letter whose DATE section meets a DATE field of its sender. *)
Definition letter : BrfLines := [".FROM"; "me"; ".DATE"; "today"].

Definition letterBrf : parser.Brf :=
  {| parser.Lines := letter;
     parser.Sections := {[ "FROM" := ["me"]; "DATE" := ["today"] ]} |}.

Definition senderList : list string :=
  ["address: me"; "DATE: 1 January"].

Definition senders : gmap string (gmap string BrfLines) :=
  {[ "me" := {[ "DATE" := ["1 January"] ]} ]}.

End example.

(** * Properties *)

(** ** Slices *)

Lemma slice_in_range {A} (a : list A) (lo hi : nat) :
  (lo <= hi <= length a)%nat ->
  Go.slice a (Z.of_nat lo) (Z.of_nat hi) = Returns (take (hi - lo) (drop lo a)).
Proof.
  intros H. unfold Go.slice, Go.len.
  assert (E : (0 <=? Z.of_nat lo) && (Z.of_nat lo <=? Z.of_nat hi)
              && (Z.of_nat hi <=? Z.of_nat (length a)) = true).
  { rewrite !andb_true_iff, !Z.leb_le. lia. }
  rewrite E, <- Nat2Z.inj_sub, !Nat2Z.id by lia. reflexivity.
Qed.

Lemma slice_negative {A} (a : list A) (lo hi : Z) :
  lo < 0 -> Go.slice a lo hi = Panics.
Proof.
  intros H. unfold Go.slice.
  destruct (0 <=? lo) eqn:E; [apply Z.leb_le in E; lia | reflexivity].
Qed.

Lemma slice_middle {A} (pre core post : list A) :
  Go.slice (pre ++ core ++ post) (Go.len pre) (Go.len pre + Go.len core)
  = Returns core.
Proof.
  unfold Go.len. rewrite <- Nat2Z.inj_add.
  rewrite slice_in_range by (rewrite !length_app; lia).
  f_equal. rewrite drop_app_length.
  replace (length pre + length core - length pre)%nat with (length core) by lia.
  apply take_app_length.
Qed.

(** ** Trimming of blank lines *)

Lemma blank_eqb (line : string) :
  blank line <-> String.eqb (Go.TrimSpace line) EmptyString = true.
Proof. unfold blank. symmetry. apply String.eqb_eq. Qed.

Lemma not_blank_eqb (line : string) :
  ~ blank line <-> String.eqb (Go.TrimSpace line) EmptyString = false.
Proof. unfold blank. symmetry. apply String.eqb_neq. Qed.

Lemma trimScan_blank_prefix pre : forall idx rest f l,
  Forall blank pre ->
  cmd.trimScan idx (pre ++ rest) f l = cmd.trimScan (idx + Go.len pre) rest f l.
Proof.
  induction pre as [|p pre IH]; intros idx rest f l Hb; simpl.
  - f_equal. unfold Go.len. simpl. lia.
  - inversion Hb as [|? ? Hp Hpre]; subst.
    apply blank_eqb in Hp. rewrite Hp. simpl.
    rewrite IH by assumption. f_equal. unfold Go.len. simpl length. lia.
Qed.

Lemma trimScan_blank rest : forall idx f l,
  Forall blank rest -> cmd.trimScan idx rest f l = (f, l).
Proof.
  intros idx f l Hb.
  rewrite <- (app_nil_r rest), trimScan_blank_prefix by assumption.
  reflexivity.
Qed.

Lemma trimScan_blank_suffix post : forall rest idx f l,
  Forall blank post ->
  cmd.trimScan idx (rest ++ post) f l = cmd.trimScan idx rest f l.
Proof.
  intros rest. induction rest as [|r rest IH]; intros idx f l Hb; simpl.
  - apply trimScan_blank; assumption.
  - destruct (negb _); apply IH; assumption.
Qed.

Lemma trimScan_first rest : forall idx f l,
  f <> -1 -> fst (cmd.trimScan idx rest f l) = f.
Proof.
  induction rest as [|r rest IH]; intros idx f l Hf; simpl; [reflexivity|].
  destruct (negb _).
  - destruct (f =? -1) eqn:E; [apply Z.eqb_eq in E; contradiction|].
    apply IH; assumption.
  - apply IH; assumption.
Qed.

Lemma trimScan_last rest : forall b idx f l,
  ~ blank b ->
  snd (cmd.trimScan idx (rest ++ [b]) f l) = idx + Go.len rest.
Proof.
  induction rest as [|r rest IH]; intros b idx f l Hb; simpl.
  - apply not_blank_eqb in Hb. rewrite Hb. simpl. unfold Go.len. simpl. lia.
  - destruct (negb _); rewrite IH by assumption;
      unfold Go.len; simpl length; lia.
Qed.

Lemma blank_dec (line : string) : {blank line} + {~ blank line}.
Proof. unfold blank. apply string_dec. Qed.

Lemma lines_core (x : BrfLines) :
  Forall blank x \/ exists pre core post, trimmed_core x pre core post.
Proof.
  induction x as [|h x IH].
  - left. constructor.
  - destruct (blank_dec h) as [Hh|Hh].
    + destruct IH as [Hall|(pre & core & post & [Hs Hpre Hpost Hhd Hl])].
      * left. constructor; assumption.
      * right. exists (h :: pre), core, post. split; try assumption.
        -- simpl. congruence.
        -- constructor; assumption.
    + right. destruct IH as [Hall|(pre & core & post & [Hs Hpre Hpost Hhd Hl])].
      * exists [], [h], x. split; simpl; try assumption; eauto.
        exists [], h. auto.
      * exists [], (h :: pre ++ core), post. split; try assumption.
        -- simpl. rewrite <- app_assoc. congruence.
        -- constructor.
        -- eauto.
        -- destruct Hl as (t & b & -> & Hb).
           exists (h :: pre ++ t), b. split; [|assumption].
           simpl. rewrite <- app_assoc. reflexivity.
Qed.

Lemma trim_blank_panics (x : BrfLines) :
  Forall blank x -> cmd.trimSurroundingEmptyLines x = Panics.
Proof.
  intros Hb. unfold cmd.trimSurroundingEmptyLines.
  rewrite trimScan_blank by assumption.
  apply slice_negative. lia.
Qed.

Lemma trim_core (x pre core post : BrfLines) :
  trimmed_core x pre core post ->
  cmd.trimSurroundingEmptyLines x = Returns core.
Proof.
  intros [-> Hpre Hpost (a & t & Ea & Ha) (t' & b & Eb & Hb)].
  unfold cmd.trimSurroundingEmptyLines.
  rewrite trimScan_blank_prefix, trimScan_blank_suffix by assumption.
  destruct (cmd.trimScan (0 + Go.len pre) core (-1) (-1)) as [f l] eqn:E.
  assert (Hf : f = Go.len pre).
  { change f with (fst (f, l)). rewrite <- E, Ea. simpl.
    apply not_blank_eqb in Ha. rewrite Ha. simpl.
    rewrite trimScan_first; unfold Go.len; lia. }
  assert (Hl : l + 1 = Go.len pre + Go.len core).
  { change l with (snd (f, l)). rewrite <- E, Eb.
    rewrite trimScan_last by assumption.
    unfold Go.len. rewrite length_app. simpl. lia. }
  rewrite Hf, Hl. apply slice_middle.
Qed.


Lemma trim_returns (x y : BrfLines) :
  cmd.trimSurroundingEmptyLines x = Returns y ->
  exists pre post, trimmed_core x pre y post.
Proof.
  intros H. destruct (lines_core x) as [Hb|(pre & core & post & Hc)].
  - rewrite trim_blank_panics in H by assumption. discriminate.
  - rewrite (trim_core _ _ _ _ Hc) in H. injection H as <-. eauto.
Qed.

(** C3: a list in which no line has content (the empty list included)
    leaves both indices of [trimSurroundingEmptyLines] at [-1]; the slice
    expression [brfLines[-1:0]] then panics, so no empty range is
    returned. *)
Theorem trim_without_content_panics (x : BrfLines) :
  Forall blank x -> cmd.trimSurroundingEmptyLines x = Panics.
Proof. apply trim_blank_panics. Qed.

Lemma trim_without_content_panics_witness :
  cmd.trimSurroundingEmptyLines [] = Panics
  /\ cmd.trimSurroundingEmptyLines [EmptyString; "  "] = Panics.
Proof.
  split.
  - apply (trim_without_content_panics []). constructor.
  - apply (trim_without_content_panics [EmptyString; "  "]).
    repeat constructor.
Defined.

(** C4: [getSingleValue] on a list without content panics inside
    [trimSurroundingEmptyLines] (so on [[]] no error is returned); on a
    list whose trimmed range is one line it returns that line trimmed of
    surrounding white space; on a longer range it returns the error
    "More than one line with content found". *)
Theorem getSingleValue_outcomes (x : BrfLines) :
  (Forall blank x -> cmd.getSingleValue x = Panics)
  /\ (forall pre core post, trimmed_core x pre core post ->
      cmd.getSingleValue x =
      Returns (match core with
               | [line] => Value (Go.TrimSpace line)
               | _ => Error ErrMultipleContent
               end)).
Proof.
  split.
  - intros Hb. unfold cmd.getSingleValue.
    rewrite trim_blank_panics by assumption. reflexivity.
  - intros pre core post Hc. unfold cmd.getSingleValue.
    rewrite (trim_core _ _ _ _ Hc).
    destruct Hc as [_ _ _ (a & t & -> & _) _].
    destruct t; reflexivity.
Qed.

Lemma getSingleValue_outcomes_witness :
  cmd.getSingleValue [] = Panics
  /\ cmd.getSingleValue [EmptyString; "hello"; EmptyString] = Returns (Value "hello")
  /\ cmd.getSingleValue ["a"; "b"] = Returns (Error ErrMultipleContent).
Proof.
  split; [|split].
  - apply (getSingleValue_outcomes []). constructor.
  - apply (proj2 (getSingleValue_outcomes [EmptyString; "hello"; EmptyString])
             [EmptyString] ["hello"] [EmptyString]).
    split; [reflexivity | repeat constructor | repeat constructor | |].
    + exists "hello", []. split; [reflexivity | discriminate].
    + exists [], "hello". split; [reflexivity | discriminate].
  - apply (proj2 (getSingleValue_outcomes ["a"; "b"]) [] ["a"; "b"] []).
    split; [reflexivity | constructor | constructor | |].
    + exists "a", ["b"]. split; [reflexivity | discriminate].
    + exists ["a"], "b". split; [reflexivity | discriminate].
Defined.



(** ** The converter registry *)

Lemma index_lookup (m : gmap string string) (k cmd : string) :
  m !! k = Some cmd -> config.index m k = cmd.
Proof. unfold config.index. intros ->. reflexivity. Qed.

Lemma index_unset (m : gmap string string) (k : string) :
  m !! k = None \/ m !! k = Some EmptyString -> config.index m k = EmptyString.
Proof. unfold config.index. intros [-> | ->]; reflexivity. Qed.

Lemma ReplaceAll_loop_step (n : nat) (d c : ascii) (s old' new : string) :
  Go.ReplaceAll_loop (S n) (String d s) (String c old') new
  = if Ascii.eqb c d && Go.HasPrefix s old'
    then new +:+ Go.ReplaceAll_loop n
                   (Go.string_drop (String.length (String c old')) (String d s))
                   (String c old') new
    else String d (Go.ReplaceAll_loop n s (String c old') new).
Proof. simpl. destruct (Ascii.eqb c d); reflexivity. Qed.

Lemma ReplaceAll_loop_plain (n : nat) (s old' new : string) (c : ascii) :
  Go.all (fun d => negb (Ascii.eqb d c)) s = true ->
  Go.ReplaceAll_loop n s (String c old') new = s.
Proof.
  revert s. induction n as [|n IH]; intros s Hs; [reflexivity|].
  destruct s as [|d s]; [reflexivity|].
  simpl in Hs. apply andb_true_iff in Hs as [Hd Hs].
  apply negb_true_iff in Hd. rewrite Ascii.eqb_sym in Hd.
  rewrite ReplaceAll_loop_step, Hd. simpl. f_equal. apply IH. assumption.
Qed.

Lemma ReplaceAll_loop_placeholder (pre post new : string) : forall n,
  (String.length (pre +:+ "%m" +:+ post) <= n)%nat ->
  Go.all (fun d => negb (Ascii.eqb d "%")) pre = true ->
  Go.all (fun d => negb (Ascii.eqb d "%")) post = true ->
  Go.ReplaceAll_loop n (pre +:+ "%m" +:+ post) "%m" new = pre +:+ new +:+ post.
Proof.
  induction pre as [|d pre IH]; intros n Hn Hpre Hpost.
  - destruct n as [|n]; [simpl in Hn; lia|].
    change (EmptyString +:+ "%m" +:+ post) with (String "%" (String "m" post)).
    rewrite ReplaceAll_loop_step. simpl.
    apply (f_equal (String.append new)), ReplaceAll_loop_plain. assumption.
  - destruct n as [|n]; [simpl in Hn; lia|].
    simpl in Hpre. apply andb_true_iff in Hpre as [Hd Hpre].
    apply negb_true_iff in Hd. rewrite Ascii.eqb_sym in Hd.
    change ((String d pre) +:+ "%m" +:+ post)
      with (String d (pre +:+ "%m" +:+ post)).
    rewrite ReplaceAll_loop_step, Hd. simpl andb. cbv iota.
    change ((String d pre) +:+ new +:+ post)
      with (String d (pre +:+ new +:+ post)).
    f_equal. apply IH; [simpl in Hn; lia | assumption..].
Qed.

(** C7: the resolution order of [NewConverter], an entry with an empty
    command counting as no entry: the command of the entry of the type
    when it is not empty; otherwise the command of the entry ["*"], when
    it is not empty, with every ["%m"] replaced by the type; otherwise
    no converter and the error "No converter configured".  A template
    with one placeholder and no other percent sign becomes the text
    before it, the type, and the text after it. *)
Theorem NewConverter_resolution (t : string) (cfg : config.Config) :
  let registry := config.MarkupConverters cfg in
  let unset k := registry !! k = None \/ registry !! k = Some EmptyString in
  (forall cmd, registry !! t = Some cmd -> cmd <> EmptyString ->
     markup.NewConverter t cfg
     = Value {| markup.markupType := t; markup.converterCmd := cmd |})
  /\ (forall tpl, unset t -> registry !! "*" = Some tpl -> tpl <> EmptyString ->
        markup.NewConverter t cfg
        = Value {| markup.markupType := t;
                   markup.converterCmd := Go.ReplaceAll tpl "%m" t |})
  /\ (unset t -> unset "*" ->
        markup.NewConverter t cfg = Error (ErrNoConverter t))
  /\ (forall pre post,
        Go.all (fun d => negb (Ascii.eqb d "%")) pre = true ->
        Go.all (fun d => negb (Ascii.eqb d "%")) post = true ->
        Go.ReplaceAll (pre +:+ "%m" +:+ post) "%m" t = pre +:+ t +:+ post).
Proof.
  intros registry unset. unfold markup.NewConverter. fold registry.
  repeat split.
  - intros cmd Hk Hne. rewrite (index_lookup _ _ _ Hk).
    apply String.eqb_neq in Hne. rewrite Hne. reflexivity.
  - intros tpl Ht Hw Hne. rewrite (index_unset _ _ Ht), (index_lookup _ _ _ Hw).
    apply String.eqb_neq in Hne. rewrite Hne. reflexivity.
  - intros Ht Hw. rewrite (index_unset _ _ Ht), (index_unset _ _ Hw). reflexivity.
  - intros pre post Hpre Hpost. apply ReplaceAll_loop_placeholder; auto.
Qed.

Lemma NewConverter_resolution_witness :
  markup.NewConverter "md" example.mdConfig = Value example.mdConverter
  /\ markup.NewConverter "rst" example.pandocConfig
     = Value {| markup.markupType := "rst";
                markup.converterCmd := "pandoc -f rst -t latex" |}
  /\ markup.NewConverter "rst" example.mdConfig = Error (ErrNoConverter "rst")
  /\ Go.ReplaceAll ("pandoc -f " +:+ "%m" +:+ " -t latex") "%m" "rst"
     = "pandoc -f " +:+ "rst" +:+ " -t latex".
Proof.
  split; [|split; [|split]].
  - apply (proj1 (NewConverter_resolution "md" example.mdConfig) "upper");
      [reflexivity | discriminate].
  - apply (proj1 (proj2 (NewConverter_resolution "rst" example.pandocConfig))
             "pandoc -f %m -t latex");
      [left; reflexivity | reflexivity | discriminate].
  - apply (proj1 (proj2 (proj2 (NewConverter_resolution "rst" example.mdConfig))));
      left; reflexivity.
  - apply (proj2 (proj2 (proj2 (NewConverter_resolution "rst" example.mdConfig))));
      reflexivity.
Defined.

(** C7, as stated: the registry [findDefaultMarkupConverters] builds
    without asciidoc holds an entry for [adoc], with an empty command;
    [NewConverter] does not resolve [adoc] to that entry but to the
    wildcard, and without a wildcard it returns the error although the
    entry exists. *)
Lemma NewConverter_skips_empty_entry :
  config.MarkupConverters example.pandocConfig !! "adoc" = Some EmptyString
  /\ markup.NewConverter "adoc" example.pandocConfig
     <> Value {| markup.markupType := "adoc"; markup.converterCmd := EmptyString |}
  /\ markup.NewConverter "adoc" example.pandocConfig
     = Value {| markup.markupType := "adoc";
                markup.converterCmd := "pandoc -f adoc -t latex" |}
  /\ markup.NewConverter "adoc"
       {| config.MarkupConverters := {[ "adoc" := EmptyString ]} |}
     = Error (ErrNoConverter "adoc").
Proof. repeat split. discriminate. Qed.

(** ** The rendering context *)

Lemma storeAll_lookup (src dst : gmap string string) (k : string) :
  cmd.storeAll src dst !! k
  = match src !! k with
    | Some v => Some v
    | None => dst !! k
    end.
Proof.
  unfold cmd.storeAll. revert k.
  apply (map_fold_weak_ind
           (fun r m => forall k, r !! k = match m !! k with
                                          | Some v => Some v
                                          | None => dst !! k
                                          end)).
  - intros k. rewrite lookup_empty. reflexivity.
  - intros i x m r Hi IH k. destruct (decide (i = k)) as [->|Hne].
    + rewrite !lookup_insert_eq. reflexivity.
    + rewrite !lookup_insert_ne by assumption. apply IH.
Qed.

Lemma merge_lookup (m1 m2 : gmap string string) (k : string) :
  cmd.merge m1 m2 !! k
  = match m2 !! k with
    | Some v => Some v
    | None => m1 !! k
    end.
Proof.
  unfold cmd.merge. rewrite !storeAll_lookup, lookup_empty.
  destruct (m2 !! k), (m1 !! k); reflexivity.
Qed.


Lemma letter_inputs :
  parser.CreateBrf example.letter = Returns example.letterBrf
  /\ address.ReadFromFile example.senderList = Value example.senders.
Proof. split; vm_compute; reflexivity. Qed.



(** ** Markup blocks *)

Section convertMarkup_terminates.

Variable Config : config.Config.
Variable Execute : string -> string -> string -> option string.

Lemma findBlockEnd_range (rest : list string) : forall x,
  0 <= x ->
  cmd.findBlockEnd x rest = -1
  \/ x <= cmd.findBlockEnd x rest < x + Go.len rest.
Proof.
  unfold Go.len. induction rest as [|l rest IH]; intros x Hx; simpl.
  - left. reflexivity.
  - destruct (cmd.patternMarkupTypeBlockEnd l); [right; lia|].
    destruct (IH (x + 1)) as [E|E]; [lia | left; exact E | right; lia].
Qed.

Lemma convertMarkup_body_index (a : list string) (i i' : Z) (s : string)
    (b b' : cmd.writer) :
  0 <= i ->
  cmd.convertMarkup_body Config Execute a i s b = Returns (i', b') ->
  i <= i'.
Proof.
  intros Hi. unfold cmd.convertMarkup_body.
  pose proof (findBlockEnd_range (drop (Z.to_nat i) a) i Hi) as Hr.
  destruct (cmd.patternMarkupTypeBlockStart s); [|intros [= <- _]; lia].
  destruct (negb _) eqn:Hend.
  - apply negb_true_iff, Z.eqb_neq in Hend.
    destruct (markup.NewConverter _ _).
    + destruct (Go.slice a (i + 1) _); simpl; [|discriminate].
      destruct (markup.Convert _ _ _).
      * intros [= <- _]. lia.
      * destruct (Go.slice a i _); simpl; [intros [= <- _]; lia | discriminate].
    + destruct (Go.slice a i _); simpl; [intros [= <- _]; lia | discriminate].
  - destruct (Go.slice_from a i); simpl; [intros [= <- _]; lia | discriminate].
Qed.

Lemma convertMarkup_loop_fuel (a : list string) : forall fuel i b,
  0 <= i -> Go.len a - i <= Z.of_nat fuel ->
  is_Some (cmd.convertMarkup_loop Config Execute fuel a i b).
Proof.
  induction fuel as [|fuel IH]; intros i b Hi Hfuel.
  - simpl. destruct (a !! Z.to_nat i) eqn:E; [|eauto].
    apply lookup_lt_Some in E. unfold Go.len in Hfuel. lia.
  - simpl. destruct (a !! Z.to_nat i) as [s|] eqn:E; [|eauto].
    destruct (cmd.convertMarkup_body Config Execute a i s b) as [[i' b']|] eqn:Eb;
      [|eauto].
    apply convertMarkup_body_index in Eb; [|assumption].
    apply IH; lia.
Qed.

(** The bound [len(a)] on the iterations of the loop is never reached:
    [convertMarkup] returns or panics. *)
Lemma convertMarkup_total (a : list string) :
  is_Some (cmd.convertMarkup Config Execute a).
Proof.
  unfold cmd.convertMarkup. destruct a as [|s [|s' a]]; [eauto..|].
  apply convertMarkup_loop_fuel; unfold Go.len; lia.
Qed.

End convertMarkup_terminates.

(** C1: on [["plain", ".md--", "# Title", "--", "plain2"]] with an
    upper-casing [md] converter, the converter is called once, with no
    line at all: the block handed to it is [a[i+1 : blockEnd-1]], which
    leaves out the last line before the end marker.  The result is
    "plain\n\nplain2\n"; the title is lost.  With the end marker right
    after the start marker the slice bounds are reversed and the call
    panics. *)
Theorem convertMarkup_block_loses_last_line :
  cmd.convertMarkup example.mdConfig example.upperExecute
    ["plain"; ".md--"; "# Title"; "--"; "plain2"]
  = Some (Returns
      {| cmd.written := "plain" +:+ Go.LF +:+ Go.LF +:+ "plain2" +:+ Go.LF;
         cmd.calls := [(example.mdConverter, [])] |})
  /\ cmd.convertMarkup example.mdConfig example.upperExecute
       ["plain"; ".md--"; "intro"; "# Title"; "--"; "plain2"]
     = Some (Returns
         {| cmd.written :=
              "plain" +:+ Go.LF +:+ "INTRO" +:+ Go.LF +:+ "plain2" +:+ Go.LF;
            cmd.calls := [(example.mdConverter, ["intro"])] |})
  /\ cmd.convertMarkup example.mdConfig example.upperExecute
       ["plain"; ".md--"; "--"; "plain2"]
     = Some Panics.
Proof. repeat split. Qed.

(** C5: on [["x", ".md--", "text"]] the start marker has no end marker;
    the lines from the marker on are written, but the loop goes on with
    the next line, so "text" is written a second time. *)
Theorem convertMarkup_unmatched_start_repeats :
  cmd.convertMarkup example.mdConfig example.upperExecute
    ["x"; ".md--"; "text"]
  = Some (Returns
      {| cmd.written :=
           "x" +:+ Go.LF +:+ ".md--" +:+ Go.LF +:+ "text" +:+ Go.LF
           +:+ "text" +:+ Go.LF;
         cmd.calls := [] |}).
Proof. reflexivity. Qed.

(** ** The address file *)

Lemma length_zero_eqb (s : string) :
  (String.length s =? 0)%nat = String.eqb s EmptyString.
Proof. destruct s; reflexivity. Qed.



Lemma step_content_None (text : string) (st : address.state) :
  content text = None -> address.step text st = Value st.
Proof.
  unfold content, address.step. rewrite length_zero_eqb.
  destruct (_ || _); [reflexivity | discriminate].
Qed.

Lemma step_addressId (text id : string) (st : address.state) :
  addressId text = Some id ->
  address.step text st
  = Value {| address.store := address.store st ++ [∅];
             address.senderAddresses :=
               <[id := address.mkAddress (length (address.store st))]>
                 (address.senderAddresses st);
             address.curAddress :=
               Some (address.mkAddress (length (address.store st))) |}.
Proof.
  unfold addressId, content, address.step. rewrite length_zero_eqb.
  destruct (_ || _); [discriminate|].
  destruct (Go.HasPrefix _ "address:"); [|discriminate].
  intros [= <-]. reflexivity.
Qed.

Lemma step_keyValue (text k v : string) (st : address.state) (cur : address.Address) :
  keyValue text = Some (k, v) ->
  address.curAddress st = Some cur ->
  address.step text st
  = Value {| address.store :=
               <[address.Fields cur :=
                   <[k := default [] (address.fieldsOf st cur !! k) ++ [v]]>
                     (address.fieldsOf st cur)]> (address.store st);
             address.senderAddresses := address.senderAddresses st;
             address.curAddress := address.curAddress st |}.
Proof.
  unfold keyValue, content, address.step. rewrite length_zero_eqb.
  destruct (_ || _); [discriminate|].
  destruct (Go.HasPrefix _ "address:"); [discriminate|].
  unfold Go.SplitN2.
  destruct (Go.cut ":" _) as [[s0 s1]|]; [|discriminate].
  intros [= <- <-] ->. do 3 f_equal.
  destruct (address.fieldsOf st cur !! _) eqn:E.
  - rewrite E. reflexivity.
  - rewrite lookup_insert_eq, insert_insert_eq. reflexivity.
Qed.

Lemma step_closed (text : string) (st : address.state) :
  content text <> None -> addressId text = None ->
  address.curAddress st = None ->
  address.step text st = Error (ErrContentWithoutAddress text).
Proof.
  unfold addressId, content, address.step. rewrite length_zero_eqb.
  destruct (_ || _); [congruence|].
  destruct (Go.HasPrefix _ "address:"); [discriminate|].
  intros _ _ ->. reflexivity.
Qed.


Lemma scanLines_app (l1 l2 : list string) : forall st,
  address.scanLines (l1 ++ l2) st
  = match address.scanLines l1 st with
    | Value st' => address.scanLines l2 st'
    | Error e => Error e
    end.
Proof.
  induction l1 as [|t l1 IH]; intros st; simpl; [reflexivity|].
  destruct (address.step t st); [apply IH | reflexivity].
Qed.


Lemma step_malformed (text : string) (st : address.state) :
  content text <> None -> addressId text = None -> keyValue text = None ->
  is_error (address.step text st) = true.
Proof.
  unfold keyValue, addressId, content, address.step. rewrite length_zero_eqb.
  destruct (_ || _); [congruence|].
  destruct (Go.HasPrefix _ "address:"); [discriminate|].
  intros _ _ Hk. destruct (address.curAddress st); [|reflexivity].
  unfold Go.SplitN2. destruct (Go.cut ":" _) as [[s0 s1]|]; [discriminate|].
  reflexivity.
Qed.

Lemma valuesOf_cons (k text : string) (seg : list string) :
  valuesOf k (text :: seg)
  = match keyValue text with
    | Some (k', v) => if decide (k' = k) then v :: valuesOf k seg else valuesOf k seg
    | None => valuesOf k seg
    end.
Proof.
  unfold valuesOf. simpl. destruct (keyValue text) as [[k' v]|]; [|reflexivity].
  destruct (decide (k' = k)); reflexivity.
Qed.

Lemma fieldsOf_insert (st : address.state) (cur : address.Address)
    (fields : gmap string BrfLines) senders open :
  (address.Fields cur < length (address.store st))%nat ->
  address.fieldsOf
    {| address.store := <[address.Fields cur := fields]> (address.store st);
       address.senderAddresses := senders;
       address.curAddress := open |} cur
  = fields.
Proof.
  intros Hlt. unfold address.fieldsOf. simpl.
  rewrite list_lookup_insert_eq by assumption. reflexivity.
Qed.

(** A run of lines without an [address:] line, read while the record
    [cur] is open, appends to the fields of [cur] and changes nothing
    else. *)
Lemma scanLines_segment (seg : list string) : forall st st' cur,
  address.curAddress st = Some cur ->
  (address.Fields cur < length (address.store st))%nat ->
  Forall (fun l => addressId l = None) seg ->
  address.scanLines seg st = Value st' ->
  address.senderAddresses st' = address.senderAddresses st
  /\ address.curAddress st' = Some cur
  /\ length (address.store st') = length (address.store st)
  /\ forall k,
       address.fieldsOf st' cur !! k
       = match valuesOf k seg with
         | [] => address.fieldsOf st cur !! k
         | vs => Some (default [] (address.fieldsOf st cur !! k) ++ vs)
         end.
Proof.
  induction seg as [|t seg IH]; intros st st' cur Hcur Hlt Hseg Hscan.
  - injection Hscan as <-. auto.
  - inversion Hseg as [|? ? Ht Hseg']; subst. simpl in Hscan.
    destruct (content t) as [line|] eqn:Ec.
    + destruct (keyValue t) as [[k v]|] eqn:Ek.
      * rewrite (step_keyValue _ _ _ _ _ Ek Hcur) in Hscan.
        apply IH with (cur := cur) in Hscan as (Hs & Hc & Hl & Hf);
          [|simpl; try rewrite length_insert; assumption..].
        simpl in Hs, Hc, Hl. rewrite length_insert in Hl.
        split; [exact Hs|]. split; [congruence|]. split; [exact Hl|].
        intros k'. rewrite Hf, valuesOf_cons, Ek.
        rewrite fieldsOf_insert by assumption.
        destruct (decide (k = k')) as [->|Hne].
        -- rewrite lookup_insert_eq. simpl.
           destruct (valuesOf k' seg); [reflexivity|].
           rewrite <- app_assoc. reflexivity.
        -- rewrite lookup_insert_ne by assumption.
           reflexivity.
      * pose proof (step_malformed t st) as He.
        destruct (address.step t st); [|discriminate].
        discriminate He; congruence.
    + rewrite step_content_None in Hscan by assumption.
      destruct (IH _ _ _ Hcur Hlt Hseg' Hscan) as (Hs & Hc & Hl & Hf).
      repeat split; try assumption.
      intros k. rewrite Hf, valuesOf_cons.
      unfold keyValue. rewrite Ec. reflexivity.
Qed.

Lemma step_cases (text : string) :
  content text = None
  \/ (exists id, addressId text = Some id)
  \/ (content text <> None /\ addressId text = None).
Proof.
  destruct (content text) eqn:Ec; [|auto].
  destruct (addressId text) eqn:Ea; [eauto|].
  right. right. split; congruence.
Qed.

(** Lines read later leave the field maps allocated earlier alone,
    except the one of the open record. *)
Lemma scanLines_frame (lines : list string) : forall st st' n,
  (forall c, address.curAddress st = Some c -> (n <= address.Fields c)%nat) ->
  (n <= length (address.store st))%nat ->
  address.scanLines lines st = Value st' ->
  forall j, (j < n)%nat -> address.store st' !! j = address.store st !! j.
Proof.
  induction lines as [|t lines IH]; intros st st' n Hcur Hn Hscan j Hj.
  - injection Hscan as <-. reflexivity.
  - simpl in Hscan.
    destruct (step_cases t) as [Ec|[(id & Ea)|(Ec & Ea)]].
    + rewrite step_content_None in Hscan by assumption. eapply IH; eassumption.
    + rewrite (step_addressId _ _ _ Ea) in Hscan.
      etransitivity; [eapply (IH _ _ n); [| |exact Hscan|exact Hj]|]; simpl.
      * intros c [= <-]. simpl. lia.
      * rewrite length_app. lia.
      * apply lookup_app_l. lia.
    + destruct (address.curAddress st) as [cur|] eqn:Ecur.
      * destruct (keyValue t) as [[k v]|] eqn:Ek.
        -- rewrite (step_keyValue _ _ _ _ _ Ek Ecur) in Hscan.
           etransitivity; [eapply (IH _ _ n); [| |exact Hscan|exact Hj]|]; simpl.
           ++ rewrite Ecur. exact Hcur.
           ++ rewrite length_insert. lia.
           ++ apply list_lookup_insert_ne.
              specialize (Hcur cur eq_refl). lia.
        -- pose proof (step_malformed t st Ec Ea Ek) as He.
           destruct (address.step t st); discriminate.
      * rewrite step_closed in Hscan by assumption. discriminate.
Qed.

(** The entry of an identifier changes only at an [address:] line that
    declares it. *)
Lemma scanLines_other_ids (id : string) (lines : list string) : forall st st',
  Forall (fun l => addressId l <> Some id) lines ->
  address.scanLines lines st = Value st' ->
  address.senderAddresses st' !! id = address.senderAddresses st !! id.
Proof.
  induction lines as [|t lines IH]; intros st st' Hl Hscan.
  - injection Hscan as <-. reflexivity.
  - inversion Hl as [|? ? Ht Hl']; subst. simpl in Hscan.
    destruct (step_cases t) as [Ec|[(id' & Ea)|(Ec & Ea)]].
    + rewrite step_content_None in Hscan by assumption. eapply IH; eassumption.
    + rewrite (step_addressId _ _ _ Ea) in Hscan.
      apply IH in Hscan; [|assumption]. rewrite Hscan. simpl.
      apply lookup_insert_ne. congruence.
    + destruct (address.curAddress st) as [cur|] eqn:Ecur.
      * destruct (keyValue t) as [[k v]|] eqn:Ek.
        -- rewrite (step_keyValue _ _ _ _ _ Ek Ecur) in Hscan.
           apply IH in Hscan; [|assumption]. exact Hscan.
        -- pose proof (step_malformed t st Ec Ea Ek) as He.
           destruct (address.step t st); discriminate.
      * rewrite step_closed in Hscan by assumption. discriminate.
Qed.



(** The record of an identifier in the returned map is built from the
    lines that follow the last [address:] line declaring it, up to the
    next [address:] line. *)
Lemma ReadFromFile_record (pre seg post : list string) (a id : string)
    (M : gmap string (gmap string BrfLines)) :
  address.ReadFromFile (pre ++ a :: seg ++ post) = Value M ->
  addressId a = Some id ->
  Forall (fun l => addressId l = None) seg ->
  (post = [] \/ exists a' post', post = a' :: post' /\ addressId a' <> None) ->
  Forall (fun l => addressId l <> Some id) post ->
  exists fields, M !! id = Some fields /\ recordOf seg fields.
Proof.
  intros HM Ha Hseg Hpost Hid. unfold address.ReadFromFile in HM.
  rewrite scanLines_app in HM.
  destruct (address.scanLines pre address.initial) as [st0|]; [|discriminate].
  simpl in HM. rewrite (step_addressId _ _ _ Ha) in HM.
  set (p := length (address.store st0)) in *.
  set (st1 := address.mkState _ _ _) in HM.
  rewrite scanLines_app in HM.
  destruct (address.scanLines seg st1) as [st2|] eqn:E2; [|discriminate].
  destruct (address.scanLines post st2) as [st3|] eqn:E3; [|discriminate].
  injection HM as <-.
  assert (Hp1 : (p < length (address.store st1))%nat).
  { subst st1. simpl. rewrite length_app. simpl. lia. }
  destruct (scanLines_segment seg st1 st2 (address.mkAddress p) eq_refl Hp1 Hseg E2)
    as (Hs2 & Hc2 & Hl2 & Hf2).
  assert (Hstore : address.store st3 !! p = address.store st2 !! p).
  { destruct Hpost as [->|(a' & post' & -> & Ha')].
    - injection E3 as <-. reflexivity.
    - simpl in E3. destruct (addressId a') as [id'|] eqn:Ea'; [|congruence].
      rewrite (step_addressId _ _ _ Ea') in E3.
      etransitivity;
        [eapply (scanLines_frame _ _ _ (length (address.store st2)));
           [| |exact E3|lia]|]; simpl.
      + intros c [= <-]. simpl. lia.
      + rewrite length_app. lia.
      + apply lookup_app_l. lia. }
  exists (address.fieldsOf st2 (address.mkAddress p)). split.
  - rewrite lookup_fmap, (scanLines_other_ids id post st2 st3 Hid E3), Hs2.
    subst st1. simpl. rewrite lookup_insert_eq. simpl.
    unfold address.fieldsOf. simpl. rewrite Hstore. reflexivity.
  - intros k. rewrite Hf2.
    assert (E1 : address.fieldsOf st1 (address.mkAddress p) = ∅).
    { unfold address.fieldsOf. subst st1 p. simpl.
      rewrite lookup_app_r, Nat.sub_diag by lia. reflexivity. }
    rewrite E1, lookup_empty. reflexivity.
Qed.

Lemma ReadFromFile_app_error (l1 l2 : list string) (st : address.state) :
  address.scanLines l1 address.initial = Value st ->
  (forall st', is_error (address.scanLines l2 st') = true) ->
  is_error (address.ReadFromFile (l1 ++ l2)) = true.
Proof.
  intros H1 H2. unfold address.ReadFromFile. rewrite scanLines_app, H1.
  specialize (H2 st). destruct (address.scanLines l2 st); [discriminate|].
  reflexivity.
Qed.


(** C10: the record an identifier has in the returned map is the one
    opened by the last [address:] line that declares it, whatever comes
    before, an earlier record of the same identifier included; it holds
    the values of the [key: value] lines between that line and the next
    [address:] line, and of no other line. *)
Theorem ReadFromFile_last_address_wins (pre seg post : list string)
    (a id : string) (M : gmap string (gmap string BrfLines)) :
  address.ReadFromFile (pre ++ a :: seg ++ post) = Value M ->
  addressId a = Some id ->
  Forall (fun l => addressId l = None) seg ->
  (post = [] \/ exists a' post', post = a' :: post' /\ addressId a' <> None) ->
  Forall (fun l => addressId l <> Some id) post ->
  exists fields, M !! id = Some fields /\ recordOf seg fields.
Proof. apply ReadFromFile_record. Qed.


Lemma ReadFromFile_last_address_wins_witness :
  exists fields,
    ({[ "me" := {[ "name" := ["new"; "newer"] ]};
        "you" := {[ "k" := ["v"] ]} ]} : gmap string (gmap string BrfLines))
      !! "me" = Some fields
    /\ recordOf ["name: new"; "name: newer"] fields.
Proof.
  refine (ReadFromFile_last_address_wins
            ["address: me"; "name: old"] ["name: new"; "name: newer"]
            ["address: you"; "k: v"] "address: me" "me"
            {[ "me" := {[ "name" := ["new"; "newer"] ]};
               "you" := {[ "k" := ["v"] ]} ]} _ _ _ _ _).
  - vm_compute. reflexivity.
  - reflexivity.
  - repeat constructor.
  - right. exists "address: you", ["k: v"]. split; [reflexivity | discriminate].
  - repeat (constructor; [vm_compute; discriminate|]). constructor.
Defined.

(** ** The sections of a document *)

Lemma markerAt_name (lines : BrfLines) (i : nat) (n1 n2 : string) :
  markerAt lines i n1 -> markerAt lines i n2 -> n1 = n2.
Proof. intros (l1 & H1 & P1) (l2 & H2 & P2). congruence. Qed.

Lemma markerAt_lt (lines : BrfLines) (i : nat) (n : string) :
  markerAt lines i n -> (i < length lines)%nat.
Proof. intros (l & H & _). eapply lookup_lt_Some; eassumption. Qed.

(** Closing the open section: the marker at [s] is the last one before
    [b], and its lines reach up to [b]. *)
Lemma sectionsUpTo_close (lines : BrfLines) (s b : nat) (cur : string)
    (secs : gmap string BrfLines) :
  markerAt lines s cur ->
  (s < b)%nat ->
  (forall k n, (s < k < b)%nat -> ~ markerAt lines k n) ->
  sectionsUpTo lines s secs ->
  sectionsUpTo lines b (<[cur := linesBetween lines s b]> secs).
Proof.
  intros Hs Hsb Hplain [Hranges Hkeys]. split.
  - intros name body. destruct (decide (cur = name)) as [<-|Hne].
    + rewrite lookup_insert_eq. split.
      * intros [= <-]. exists s, b. split; [|reflexivity].
        split; [assumption | lia | assumption | auto | intros; lia].
      * intros (i & j & [Hm Ho Hb He Hl] & ->).
        assert (s < j)%nat.
        { destruct (decide (s < j)%nat); [assumption|].
          exfalso. apply (Hl s); [lia | assumption]. }
        assert (i = s) as ->.
        { destruct (decide (i < s)%nat); [exfalso; apply (Hb s cur); [lia|assumption]|].
          destruct (decide (s < i)%nat); [exfalso; apply (Hplain i cur); [lia|assumption]|].
          lia. }
        assert (j = b) as ->.
        { destruct He as [->|(n & Hn)]; [reflexivity|].
          destruct (decide (j = b)); [assumption|].
          exfalso. apply (Hplain j n); [lia | assumption]. }
        reflexivity.
    + rewrite lookup_insert_ne by assumption. rewrite Hranges.
      split; intros (i & j & [Hm Ho Hb He Hl] & ->); exists i, j;
        (split; [|reflexivity]).
      * split; [assumption | lia | assumption | | ].
        -- right. destruct He as [->|He]; [eauto | assumption].
        -- intros k Hk Hmk.
           destruct (decide (k < s)%nat); [apply (Hl k); [lia|assumption]|].
           destruct (decide (k = s)) as [->|];
             [apply Hne; eapply markerAt_name; eassumption|].
           apply (Hplain k name); [lia | assumption].
      * assert (i < s)%nat.
        { destruct (decide (i < s)%nat); [assumption|].
          destruct (decide (i = s)) as [->|];
            [exfalso; apply Hne; eapply markerAt_name; eassumption|].
          exfalso. apply (Hplain i name); [lia | assumption]. }
        assert (j <= s)%nat.
        { destruct (decide (j <= s)%nat); [assumption|].
          exfalso. apply (Hb s cur); [lia | assumption]. }
        split; [assumption | lia | assumption | | intros; apply Hl; lia].
        destruct He as [->|He]; [lia | right; assumption].
  - intros name. destruct (decide (cur = name)) as [<-|Hne].
    + rewrite lookup_insert_eq. split; [eauto|]. intros _. eauto.
    + rewrite lookup_insert_ne by assumption. rewrite Hkeys.
      split; intros (i & Hi & Hm); exists i; (split; [|assumption]); [lia|].
      destruct (decide (i < s)%nat); [assumption|].
      destruct (decide (i = s)) as [->|];
        [exfalso; apply Hne; eapply markerAt_name; eassumption|].
      exfalso. apply (Hplain i name); [lia | assumption].
Qed.

Lemma sectionsUpTo_none (lines : BrfLines) (b : nat) :
  (forall k n, (k < b)%nat -> ~ markerAt lines k n) ->
  sectionsUpTo lines b ∅.
Proof.
  intros Hplain. split.
  - intros name body. rewrite lookup_empty. split; [discriminate|].
    intros (i & j & [Hm Ho _ _ _] & _). exfalso.
    apply (Hplain i name); [lia | assumption].
  - intros name. rewrite lookup_empty. split.
    + intros [? ?]. discriminate.
    + intros (i & Hi & Hm). exfalso. apply (Hplain i name); assumption.
Qed.

Lemma slice_between (lines : BrfLines) (s b : nat) :
  (s < b <= length lines)%nat ->
  Go.slice lines (Z.of_nat s + 1) (Z.of_nat b) = Returns (linesBetween lines s b).
Proof.
  intros H. replace (Z.of_nat s + 1) with (Z.of_nat (S s)) by lia.
  apply slice_in_range. lia.
Qed.

Lemma CreateBrf_step_inv (lines : BrfLines) (idx : nat) (line : string)
    (st : parser.scan) :
  lines !! idx = Some line ->
  scanInv lines idx st ->
  exists st',
    parser.CreateBrf_step lines (Z.of_nat idx) line st = Returns st'
    /\ scanInv lines (S idx) st'.
Proof.
  intros Hline Hinv. pose proof (lookup_lt_Some _ _ _ Hline) as Hlt.
  unfold parser.CreateBrf_step, scanInv in *.
  destruct (parser.patternSectionId line) as [name|] eqn:Ep.
  - assert (Hm : markerAt lines idx name) by (exists line; auto).
    destruct (parser.currentSection st) as [cur|].
    + destruct Hinv as (s & Hstart & Hs & Hcur & Hplain & Hsecs).
      rewrite Hstart, slice_between by lia. simpl.
      eexists. split; [reflexivity|]. simpl.
      exists idx. split; [reflexivity|]. split; [lia|]. split; [assumption|].
      split; [intros; lia|]. apply sectionsUpTo_close; assumption.
    + destruct Hinv as (Hplain & Hempty). simpl.
      eexists. split; [reflexivity|]. simpl.
      exists idx. split; [reflexivity|]. split; [lia|]. split; [assumption|].
      split; [intros; lia|]. rewrite Hempty. apply sectionsUpTo_none. assumption.
  - exists st. split; [reflexivity|].
    assert (Hidx : forall n, ~ markerAt lines idx n).
    { intros n (l & Hl & Hp). congruence. }
    destruct (parser.currentSection st) as [cur|].
    + destruct Hinv as (s & Hstart & Hs & Hcur & Hplain & Hsecs).
      exists s. split; [assumption|]. split; [lia|]. split; [assumption|].
      split; [|assumption].
      intros k n Hk. destruct (decide (k = idx)) as [->|]; [apply Hidx|].
      apply Hplain. lia.
    + destruct Hinv as (Hplain & Hempty). split; [|assumption].
      intros k n Hk. destruct (decide (k = idx)) as [->|]; [apply Hidx|].
      apply Hplain. lia.
Qed.

Lemma CreateBrf_loop_inv (lines : BrfLines) (rest : BrfLines) : forall idx st,
  drop idx lines = rest ->
  scanInv lines idx st ->
  exists st',
    parser.CreateBrf_loop lines (Z.of_nat idx) rest st = Returns st'
    /\ scanInv lines (length lines) st'.
Proof.
  induction rest as [|line rest IH]; intros idx st Hdrop Hinv.
  - exists st. split; [reflexivity|].
    assert (Hlen : (length lines <= idx)%nat).
    { apply drop_nil_inv in Hdrop. exact Hdrop. }
    unfold scanInv in *. destruct (parser.currentSection st) as [cur|].
    + destruct Hinv as (s & Hstart & Hs & Hcur & Hplain & Hsecs).
      pose proof (markerAt_lt _ _ _ Hcur) as Hslt.
      exists s. split; [assumption|]. split; [lia|]. split; [assumption|].
      split; [|assumption].
      intros k n Hk. apply Hplain. lia.
    + destruct Hinv as (Hplain & Hempty). split; [|assumption].
      intros k n Hk Hm. pose proof (markerAt_lt _ _ _ Hm).
      apply (Hplain k n); [lia | assumption].
  - assert (Hline : lines !! idx = Some line).
    { rewrite <- (Nat.add_0_r idx), <- lookup_drop, Hdrop. reflexivity. }
    assert (Hrest : drop (S idx) lines = rest).
    { change rest with (drop 1 (line :: rest)).
      rewrite <- Hdrop, drop_drop. f_equal. lia. }
    destruct (CreateBrf_step_inv lines idx line st Hline Hinv) as (st1 & E1 & Hinv1).
    simpl. rewrite E1. simpl.
    replace (Z.of_nat idx + 1) with (Z.of_nat (S idx)) by lia.
    apply IH; assumption.
Qed.

Lemma CreateBrf_sectionsUpTo (lines : BrfLines) :
  exists brf,
    parser.CreateBrf lines = Returns brf
    /\ parser.Lines brf = lines
    /\ sectionsUpTo lines (length lines) (parser.Sections brf).
Proof.
  unfold parser.CreateBrf.
  destruct (CreateBrf_loop_inv lines lines 0
              {| parser.currentSection := None;
                 parser.currentSectionStart := -1;
                 parser.sections := ∅ |})
    as (st & Hloop & Hinv).
  - reflexivity.
  - split; [|reflexivity]. intros k n Hk. lia.
  - change (Z.of_nat 0) with 0 in Hloop. simpl parser.Sections. rewrite Hloop.
    simpl. unfold scanInv in Hinv.
    destruct (parser.currentSection st) as [cur|].
    + destruct Hinv as (s & Hstart & Hs & Hcur & Hplain & Hsecs).
      unfold Go.slice_from, Go.len. rewrite Hstart, slice_between by lia.
      simpl. eexists. split; [reflexivity|]. split; [reflexivity|]. simpl.
      apply sectionsUpTo_close; assumption.
    + destruct Hinv as (Hplain & Hempty). simpl.
      eexists. split; [reflexivity|]. split; [reflexivity|]. simpl.
      rewrite Hempty. apply sectionsUpTo_none. assumption.
Qed.

Lemma rangeIn_disjoint (lines : BrfLines) (bound : nat) (n1 n2 : string)
    (i1 j1 i2 j2 : nat) :
  rangeIn lines bound n1 i1 j1 -> rangeIn lines bound n2 i2 j2 -> n1 <> n2 ->
  (j1 <= i2 \/ j2 <= i1)%nat.
Proof.
  intros [Hm1 Ho1 Hb1 _ _] [Hm2 Ho2 Hb2 _ _] Hne.
  destruct (decide (i1 = i2)) as [->|Hi].
  - exfalso. apply Hne. eapply markerAt_name; eassumption.
  - destruct (decide (i1 < i2)%nat).
    + left. destruct (decide (j1 <= i2)%nat); [assumption|].
      exfalso. apply (Hb1 i2 n2); [lia | assumption].
    + right. destruct (decide (j2 <= i1)%nat); [assumption|].
      exfalso. apply (Hb2 i1 n1); [lia | assumption].
Qed.

(** The shape of a section marker. *)

Lemma span_spec (p : ascii -> bool) (s : string) :
  let (run, rest) := Go.span p s in
  s = run +:+ rest /\ Go.all p run = true
  /\ match rest with
     | EmptyString => True
     | String c _ => p c = false
     end.
Proof.
  induction s as [|c s IH]; simpl; [auto|].
  destruct (p c) eqn:Ec.
  - destruct (Go.span p s) as [run rest]. destruct IH as (-> & Hrun & Hrest).
    simpl. rewrite Ec. auto.
  - simpl. auto.
Qed.

Lemma span_app (p : ascii -> bool) (run rest : string) :
  Go.all p run = true ->
  match rest with
  | EmptyString => True
  | String c _ => p c = false
  end ->
  Go.span p (run +:+ rest) = (run, rest).
Proof.
  intros Hrun Hrest. induction run as [|c run IH]; simpl.
  - destruct rest as [|c rest]; [reflexivity|]. simpl. rewrite Hrest. reflexivity.
  - simpl in Hrun. apply andb_true_iff in Hrun as [Hc Hrun].
    rewrite Hc, IH by assumption. reflexivity.
Qed.

Lemma isReSpace_not_upper (c : ascii) :
  Go.isReSpace c = true -> Go.isUpper c = false.
Proof.
  destruct c as [[] [] [] [] [] [] [] []]; intros H;
    solve [reflexivity | discriminate H].
Qed.

Lemma patternSectionId_shape (line name : string) :
  parser.patternSectionId line = Some name <->
  name <> EmptyString /\ Go.all Go.isUpper name = true
  /\ exists ws, Go.all Go.isReSpace ws = true /\ line = "." +:+ name +:+ ws.
Proof.
  unfold parser.patternSectionId. split.
  - destruct line as [|c rest]; [discriminate|].
    destruct (Ascii.eqb c ".") eqn:Ec.
    + apply Ascii.eqb_eq in Ec as ->.
      pose proof (span_spec Go.isUpper rest) as Hspan.
      destruct (Go.span Go.isUpper rest) as [run tail].
      destruct Hspan as (-> & Hrun & _).
      destruct (String.eqb run EmptyString) eqn:En; simpl; [discriminate|].
      destruct (Go.all Go.isReSpace tail) eqn:Et; [|discriminate].
      intros [= <-]. apply String.eqb_neq in En. eauto.
    + apply Ascii.eqb_neq in Ec.
      destruct c as [[] [] [] [] [] [] [] []]; try discriminate.
      congruence.
  - intros (Hne & Hup & ws & Hws & ->).
    change ((let (run, tail) := Go.span Go.isUpper (name +:+ ws) in
             if negb (String.eqb run EmptyString) && Go.all Go.isReSpace tail
             then Some run else None) = Some name).
    rewrite span_app.
    + apply String.eqb_neq in Hne. rewrite Hne, Hws. reflexivity.
    + assumption.
    + destruct ws as [|c ws]; [exact I|]. simpl in Hws.
      apply andb_true_iff in Hws as [Hc _]. apply isReSpace_not_upper. assumption.
Qed.

(** C6: [CreateBrf] returns, for every sequence of lines, a document
    with these lines whose section map has (a) as keys exactly the names
    of the section-marker lines, a marker being a dot, one or more
    upper-case letters and optional white space; (b) under each name the
    lines strictly after the last marker of that name up to the next
    marker or the end of input (so a later marker of the same name
    replaces the earlier section); (c) ranges of different names that do
    not overlap; (d) no entry at all when no line is a marker. *)
Theorem CreateBrf_sections (lines : BrfLines) :
  exists brf,
    parser.CreateBrf lines = Returns brf
    /\ parser.Lines brf = lines
    /\ (forall name,
          is_Some (parser.Sections brf !! name) <-> exists i, markerAt lines i name)
    /\ (forall line name,
          parser.patternSectionId line = Some name <->
          name <> EmptyString /\ Go.all Go.isUpper name = true
          /\ exists ws, Go.all Go.isReSpace ws = true
                        /\ line = "." +:+ name +:+ ws)
    /\ (forall name body,
          parser.Sections brf !! name = Some body <->
          exists i j, sectionRange lines name i j /\ body = linesBetween lines i j)
    /\ (forall n1 n2 i1 j1 i2 j2,
          sectionRange lines n1 i1 j1 -> sectionRange lines n2 i2 j2 ->
          n1 <> n2 -> (j1 <= i2 \/ j2 <= i1)%nat)
    /\ ((forall i name, ~ markerAt lines i name) -> parser.Sections brf = ∅).
Proof.
  destruct (CreateBrf_sectionsUpTo lines) as (brf & Hbrf & Hlines & Hranges & Hkeys).
  exists brf. split; [assumption|]. split; [assumption|].
  assert (Hk : forall name,
             is_Some (parser.Sections brf !! name) <-> exists i, markerAt lines i name).
  { intros name. rewrite Hkeys. split.
    - intros (i & _ & Hm). eauto.
    - intros (i & Hm). exists i. split; [eapply markerAt_lt; eassumption | assumption]. }
  split; [exact Hk|]. split; [apply patternSectionId_shape|].
  split; [exact Hranges|]. split; [intros *; apply rangeIn_disjoint|].
  intros Hplain. apply map_empty. intros name.
  destruct (parser.Sections brf !! name) eqn:E; [|reflexivity].
  exfalso. destruct (proj1 (Hk name)) as (i & Hm); [rewrite E; eauto|].
  apply (Hplain i name). assumption.
Qed.

Lemma CreateBrf_sections_witness :
  exists brf,
    parser.CreateBrf ["intro"; "body"] = Returns brf
    /\ parser.Sections brf = ∅.
Proof.
  destruct (CreateBrf_sections ["intro"; "body"])
    as (brf & Hbrf & _ & _ & _ & _ & _ & Hnone).
  exists brf. split; [exact Hbrf|]. apply Hnone.
  intros i name (line & Hline & Hp).
  destruct i as [|[|i]]; simpl in Hline;
    [injection Hline as <-; discriminate Hp.. | discriminate Hline].
Defined.

(** Two markers of one name: the later section replaces the earlier one,
    and the lines before the first marker belong to no section. *)
Example CreateBrf_same_name :
  parser.CreateBrf ["x"; ".A"; "a1"; ".B"; ".A  "; "a2"; "a3"]
  = Returns {| parser.Lines := ["x"; ".A"; "a1"; ".B"; ".A  "; "a2"; "a3"];
               parser.Sections := {[ "A" := ["a2"; "a3"]; "B" := [] ]} |}.
Proof. vm_compute. reflexivity. Qed.

(** * Further properties of the code *)

(** ** [trimSurroundingEmptyLines] and [getSingleValue] *)

(** [trimSurroundingEmptyLines] panics exactly on the lists without a
    line with content; what it returns is never empty: it starts and
    ends with a line with content, and is no longer than the input. *)
Theorem trim_panics_iff_blank (x : BrfLines) :
  (cmd.trimSurroundingEmptyLines x = Panics <-> Forall blank x)
  /\ (forall y, cmd.trimSurroundingEmptyLines x = Returns y ->
      (exists a t, y = a :: t /\ ~ blank a)
      /\ (exists t b, y = t ++ [b] /\ ~ blank b)
      /\ (length y <= length x)%nat).
Proof.
  split.
  - split; [|apply trim_blank_panics].
    intros Hp. destruct (lines_core x) as [Hb|(pre & core & post & Hc)];
      [assumption|].
    rewrite (trim_core _ _ _ _ Hc) in Hp. discriminate.
  - intros y Hy. apply trim_returns in Hy as (pre & post & [-> _ _ Hh Hl]).
    split; [assumption|]. split; [assumption|].
    rewrite !length_app. lia.
Qed.

Lemma trim_panics_iff_blank_witness :
  (exists a t, ["x"; EmptyString; "y"] = a :: t /\ ~ blank a)
  /\ (exists t b, ["x"; EmptyString; "y"] = t ++ [b] /\ ~ blank b)
  /\ (length ["x"; EmptyString; "y"] <= length [" "; "x"; EmptyString; "y"; EmptyString])%nat.
Proof.
  apply (proj2 (trim_panics_iff_blank [" "; "x"; EmptyString; "y"; EmptyString])).
  reflexivity.
Defined.

(** Blank lines before and after a list of lines do not change what
    [trimSurroundingEmptyLines] does with it. *)
Theorem trim_ignores_blank_border (pre x post : BrfLines) :
  Forall blank pre -> Forall blank post ->
  cmd.trimSurroundingEmptyLines (pre ++ x ++ post)
  = cmd.trimSurroundingEmptyLines x.
Proof.
  intros Hpre Hpost.
  destruct (lines_core x) as [Hb|(p & core & q & [-> Hp Hq Hh Hl])].
  - rewrite !trim_blank_panics; [reflexivity | assumption |].
    apply Forall_app. split; [assumption|]. apply Forall_app. auto.
  - rewrite (trim_core (p ++ core ++ q) p core q) by (split; auto).
    apply (trim_core _ (pre ++ p) core (q ++ post)). split; auto.
    + rewrite <- !app_assoc. reflexivity.
    + apply Forall_app. auto.
    + apply Forall_app. auto.
Qed.

Lemma trim_ignores_blank_border_witness :
  cmd.trimSurroundingEmptyLines ([EmptyString; "  "] ++ ["a"; EmptyString; "b"] ++ [" "])
  = cmd.trimSurroundingEmptyLines ["a"; EmptyString; "b"].
Proof.
  apply trim_ignores_blank_border; repeat constructor.
Defined.

Lemma getSingleValue_blank (x : BrfLines) :
  Forall blank x -> cmd.getSingleValue x = Panics.
Proof.
  intros Hb. unfold cmd.getSingleValue.
  rewrite trim_blank_panics by assumption. reflexivity.
Qed.

Lemma getSingleValue_core (x pre core post : BrfLines) :
  trimmed_core x pre core post ->
  cmd.getSingleValue x
  = Returns (match core with
             | [line] => Value (Go.TrimSpace line)
             | _ => Error ErrMultipleContent
             end).
Proof.
  intros Hc. unfold cmd.getSingleValue. rewrite (trim_core _ _ _ _ Hc).
  destruct Hc as [_ _ _ (a & t & -> & _) _]. destruct t; reflexivity.
Qed.

(** [getSingleValue] has three outcomes only: a panic, a value, or the
    error "More than one line with content found".  Its error "No line
    with content found" is never returned: on a list without content it
    has panicked before, and on every other list a line remains. *)
Theorem getSingleValue_three_outcomes (x : BrfLines) :
  cmd.getSingleValue x = Panics
  \/ (exists v, cmd.getSingleValue x = Returns (Value v))
  \/ cmd.getSingleValue x = Returns (Error ErrMultipleContent).
Proof.
  destruct (lines_core x) as [Hb|(pre & core & post & Hc)].
  - left. exact (getSingleValue_blank x Hb).
  - right. rewrite (getSingleValue_core x _ _ _ Hc).
    destruct core as [|line [|? ?]]; eauto.
Qed.

(** [getSingleValue] returns a value exactly for the lists with one line
    with content and blank lines around it; the value is that line
    trimmed, and it is not empty. *)
Theorem getSingleValue_value (x : BrfLines) (v : string) :
  cmd.getSingleValue x = Returns (Value v) <->
  exists pre line post,
    x = pre ++ line :: post /\ Forall blank pre /\ Forall blank post
    /\ v = Go.TrimSpace line /\ v <> EmptyString.
Proof.
  split.
  - intros Hv. destruct (lines_core x) as [Hb|(pre & core & post & Hc)].
    + rewrite (getSingleValue_blank x Hb) in Hv. discriminate.
    + rewrite (getSingleValue_core x _ _ _ Hc) in Hv.
      destruct Hc as [-> Hpre Hpost (a & t & Ea & Ha) _].
      destruct core as [|line [|? ?]]; try discriminate.
      injection Hv as <-. injection Ea as <- <-.
      exists pre, line, post. auto.
  - intros (pre & line & post & -> & Hpre & Hpost & -> & Hne).
    apply (getSingleValue_core (pre ++ line :: post) pre [line] post).
    split; auto.
    + exists line, []. auto.
    + exists [], line. auto.
Qed.

Lemma getSingleValue_value_witness :
  cmd.getSingleValue ([EmptyString] ++ " hello " :: [EmptyString; " "])
  = Returns (Value "hello").
Proof.
  apply getSingleValue_value.
  exists [EmptyString], " hello ", [EmptyString; " "].
  split; [reflexivity|]. split; [repeat constructor|].
  split; [repeat constructor|]. split; [reflexivity | discriminate].
Defined.

(** ** [merge] *)

(** [merge] is the union of its arguments in which the second one wins:
    its keys are the keys of both maps, and merging with an empty map or
    with itself changes nothing. *)
Theorem merge_union (m1 m2 : gmap string string) :
  cmd.merge m1 m2 = m2 ∪ m1
  /\ dom (cmd.merge m1 m2) = dom m1 ∪ dom m2
  /\ cmd.merge m1 ∅ = m1 /\ cmd.merge ∅ m2 = m2 /\ cmd.merge m1 m1 = m1.
Proof.
  assert (Hu : forall a b : gmap string string, cmd.merge a b = b ∪ a).
  { intros a b. apply map_eq. intros k.
    rewrite merge_lookup, lookup_union.
    destruct (b !! k), (a !! k); reflexivity. }
  split; [apply Hu|].
  split; [rewrite Hu, dom_union_L; apply (comm_L (∪))|].
  split; [|split]; apply map_eq; intros k; rewrite merge_lookup.
  - rewrite lookup_empty. reflexivity.
  - rewrite lookup_empty. destruct (m2 !! k); reflexivity.
  - destruct (m1 !! k); reflexivity.
Qed.

(** Merging is associative: merging three maps gives the same context
    whichever two are merged first. *)
Theorem merge_assoc (m1 m2 m3 : gmap string string) :
  cmd.merge (cmd.merge m1 m2) m3 = cmd.merge m1 (cmd.merge m2 m3).
Proof.
  apply map_eq. intros k. rewrite !merge_lookup.
  destruct (m3 !! k), (m2 !! k); reflexivity.
Qed.

(** ** The patterns of the tex command *)

Lemma isReSpace_not_lower (c : ascii) :
  Go.isReSpace c = true -> Go.isLower c = false.
Proof.
  destruct c as [[] [] [] [] [] [] [] []]; intros H;
    solve [reflexivity | discriminate H].
Qed.

Lemma isReSpace_not_hyphen (c : ascii) :
  Go.isReSpace c = true -> Go.isHyphen c = false.
Proof.
  destruct c as [[] [] [] [] [] [] [] []]; intros H;
    solve [reflexivity | discriminate H].
Qed.

Lemma isHyphen_not_lower (c : ascii) :
  Go.isHyphen c = true -> Go.isLower c = false.
Proof.
  destruct c as [[] [] [] [] [] [] [] []]; intros H;
    solve [reflexivity | discriminate H].
Qed.

Lemma isUpper_not_lower (c : ascii) :
  Go.isUpper c = true -> Go.isLower c = false.
Proof.
  destruct c as [[] [] [] [] [] [] [] []]; intros H;
    solve [reflexivity | discriminate H].
Qed.

Lemma isHyphen_not_dot (c : ascii) :
  Go.isHyphen c = true -> c <> "."%char.
Proof.
  destruct c as [[] [] [] [] [] [] [] []]; intros H;
    solve [discriminate | discriminate H].
Qed.

Lemma append_assoc_s (a b c : string) : (a +:+ b) +:+ c = a +:+ b +:+ c.
Proof.
  induction a as [|x a IH]; [reflexivity|].
  change (String x ((a +:+ b) +:+ c) = String x (a +:+ b +:+ c)).
  f_equal. exact IH.
Qed.

Lemma append_nil_r_s (a : string) : a +:+ EmptyString = a.
Proof.
  induction a as [|x a IH]; [reflexivity|].
  change (String x (a +:+ EmptyString) = String x a). f_equal. exact IH.
Qed.

Lemma length_append_s (a b : string) :
  String.length (a +:+ b) = (String.length a + String.length b)%nat.
Proof.
  induction a as [|x a IH]; [reflexivity|].
  change (S (String.length (a +:+ b)) = S (String.length a + String.length b)).
  f_equal. exact IH.
Qed.

Lemma dotted_line (line : string) (A : Type) (f : string -> A) (d : A) :
  match line with
  | String c rest => if Ascii.eqb c "." then f rest else d
  | EmptyString => d
  end
  = match line with
    | String "." rest => f rest
    | _ => d
    end.
Proof.
  destruct line as [|c rest]; [reflexivity|].
  destruct c as [[] [] [] [] [] [] [] []]; reflexivity.
Qed.

Lemma blockEnd_shape (line : string) :
  cmd.patternMarkupTypeBlockEnd line = true <->
  exists hyphens ws,
    Go.all Go.isHyphen hyphens = true /\ (2 <= String.length hyphens)%nat
    /\ Go.all Go.isReSpace ws = true /\ line = hyphens +:+ ws.
Proof.
  unfold cmd.patternMarkupTypeBlockEnd. split.
  - pose proof (span_spec Go.isHyphen line) as Hspan.
    destruct (Go.span Go.isHyphen line) as [hy tail].
    destruct Hspan as (-> & Hhy & _).
    intros H. apply andb_true_iff in H as [Hlen Htail].
    apply Nat.leb_le in Hlen. eauto 6.
  - intros (hy & ws & Hhy & Hlen & Hws & ->).
    rewrite span_app.
    + apply andb_true_iff. split; [apply Nat.leb_le; assumption | assumption].
    + assumption.
    + destruct ws as [|c ws]; [exact I|]. simpl in Hws.
      apply andb_true_iff in Hws as [Hc _]. apply isReSpace_not_hyphen. assumption.
Qed.

Lemma markupType_shape (line t : string) :
  cmd.patternMarkupType line = Some t <->
  t <> EmptyString /\ Go.all Go.isLower t = true
  /\ exists ws, Go.all Go.isReSpace ws = true /\ line = "." +:+ t +:+ ws.
Proof.
  unfold cmd.patternMarkupType. split.
  + destruct line as [|c rest]; [discriminate|].
    destruct (Ascii.eqb c ".") eqn:Ec.
    * apply Ascii.eqb_eq in Ec as ->.
      pose proof (span_spec Go.isLower rest) as Hspan.
      destruct (Go.span Go.isLower rest) as [run tail].
      destruct Hspan as (-> & Hrun & _).
      destruct (String.eqb run EmptyString) eqn:En; simpl; [discriminate|].
      destruct (Go.all Go.isReSpace tail) eqn:Et; [|discriminate].
      intros [= <-]. apply String.eqb_neq in En. eauto.
    * apply Ascii.eqb_neq in Ec.
      destruct c as [[] [] [] [] [] [] [] []]; try discriminate. congruence.
  + intros (Hne & Hlow & ws & Hws & ->).
    change ((let (run, tail) := Go.span Go.isLower (t +:+ ws) in
             if negb (String.eqb run EmptyString) && Go.all Go.isReSpace tail
             then Some run else None) = Some t).
    rewrite span_app.
    * apply String.eqb_neq in Hne. rewrite Hne, Hws. reflexivity.
    * assumption.
    * destruct ws as [|c ws]; [exact I|]. simpl in Hws.
      apply andb_true_iff in Hws as [Hc _]. apply isReSpace_not_lower. assumption.
Qed.

Lemma blockStart_shape (line t : string) :
  cmd.patternMarkupTypeBlockStart line = Some t <->
  t <> EmptyString /\ Go.all Go.isLower t = true
  /\ exists hyphens ws,
       Go.all Go.isHyphen hyphens = true /\ (2 <= String.length hyphens)%nat
       /\ Go.all Go.isReSpace ws = true
       /\ line = "." +:+ t +:+ hyphens +:+ ws.
Proof.
  unfold cmd.patternMarkupTypeBlockStart. split.
  + destruct line as [|c rest]; [discriminate|].
    destruct (Ascii.eqb c ".") eqn:Ec.
    * apply Ascii.eqb_eq in Ec as ->.
      pose proof (span_spec Go.isLower rest) as Hspan.
      destruct (Go.span Go.isLower rest) as [run tail].
      destruct Hspan as (-> & Hrun & _).
      destruct (String.eqb run EmptyString) eqn:En; simpl; [discriminate|].
      destruct (cmd.patternMarkupTypeBlockEnd tail) eqn:Et; [|discriminate].
      intros [= <-]. apply String.eqb_neq in En.
      apply blockEnd_shape in Et as (hy & ws & Hhy & Hlen & Hws & ->).
      eauto 10.
    * apply Ascii.eqb_neq in Ec.
      destruct c as [[] [] [] [] [] [] [] []]; try discriminate. congruence.
  + intros (Hne & Hlow & hy & ws & Hhy & Hlen & Hws & ->).
    change ((let (run, tail) := Go.span Go.isLower (t +:+ hy +:+ ws) in
             if negb (String.eqb run EmptyString)
                && cmd.patternMarkupTypeBlockEnd tail
             then Some run else None) = Some t).
    rewrite span_app.
    * apply String.eqb_neq in Hne. rewrite Hne.
      rewrite (proj2 (blockEnd_shape (hy +:+ ws))) by eauto 6. reflexivity.
    * assumption.
    * destruct hy as [|c hy]; [simpl in Hlen; lia|]. simpl in Hhy |- *.
      apply andb_true_iff in Hhy as [Hc _]. apply isHyphen_not_lower. assumption.
Qed.

(** The three patterns of the tex command match the lines their regular
    expressions describe: a dot and lower-case letters, followed by
    white space for a markup declaration and by two or more hyphens and
    white space for a block start; two or more hyphens and white space
    for a block end. *)
Theorem markup_patterns_shape (line : string) :
  (forall t, cmd.patternMarkupType line = Some t <->
     t <> EmptyString /\ Go.all Go.isLower t = true
     /\ exists ws, Go.all Go.isReSpace ws = true /\ line = "." +:+ t +:+ ws)
  /\ (forall t, cmd.patternMarkupTypeBlockStart line = Some t <->
        t <> EmptyString /\ Go.all Go.isLower t = true
        /\ exists hyphens ws,
             Go.all Go.isHyphen hyphens = true /\ (2 <= String.length hyphens)%nat
             /\ Go.all Go.isReSpace ws = true
             /\ line = "." +:+ t +:+ hyphens +:+ ws)
  /\ (cmd.patternMarkupTypeBlockEnd line = true <->
      exists hyphens ws,
        Go.all Go.isHyphen hyphens = true /\ (2 <= String.length hyphens)%nat
        /\ Go.all Go.isReSpace ws = true /\ line = hyphens +:+ ws).
Proof.
  split; [|split; [|apply blockEnd_shape]].
  - intros t. apply markupType_shape.
  - intros t. apply blockStart_shape.
Qed.

Lemma blockEnd_first (line : string) :
  cmd.patternMarkupTypeBlockEnd line = true ->
  exists c rest, line = String c rest /\ Go.isHyphen c = true.
Proof.
  intros H. apply blockEnd_shape in H as (hy & ws & Hhy & Hlen & _ & ->).
  destruct hy as [|c hy]; [simpl in Hlen; lia|]. simpl in Hhy.
  apply andb_true_iff in Hhy as [Hc _]. simpl. eauto.
Qed.

Lemma blockStart_not_end (line t : string) :
  cmd.patternMarkupTypeBlockStart line = Some t ->
  cmd.patternMarkupTypeBlockEnd line = false.
Proof.
  intros Hs. destruct (cmd.patternMarkupTypeBlockEnd line) eqn:He; [|reflexivity].
  apply blockEnd_first in He as (c & rest & -> & Hc).
  apply isHyphen_not_dot in Hc. unfold cmd.patternMarkupTypeBlockStart in Hs.
  destruct c as [[] [] [] [] [] [] [] []]; try discriminate Hs. congruence.
Qed.

(** No line matches two of the four patterns: a section marker, a
    markup declaration, a block start and a block end exclude each
    other. *)
Theorem patterns_exclusive (line : string) :
  (is_Some (parser.patternSectionId line) ->
     cmd.patternMarkupType line = None
     /\ cmd.patternMarkupTypeBlockStart line = None
     /\ cmd.patternMarkupTypeBlockEnd line = false)
  /\ (is_Some (cmd.patternMarkupType line) ->
        cmd.patternMarkupTypeBlockStart line = None
        /\ cmd.patternMarkupTypeBlockEnd line = false)
  /\ (is_Some (cmd.patternMarkupTypeBlockStart line) ->
        cmd.patternMarkupTypeBlockEnd line = false).
Proof.
  pose proof (fun t => markupType_shape line t) as Htype.
  pose proof (fun t => blockStart_shape line t) as Hstart.
  assert (Hdot : forall rest, cmd.patternMarkupTypeBlockEnd (String "." rest) = false).
  { intros rest.
    destruct (cmd.patternMarkupTypeBlockEnd (String "." rest)) eqn:E; [|reflexivity].
    apply blockEnd_first in E as (c & r & E & Hc).
    injection E as Ec Er. subst c. discriminate Hc. }
  split; [|split].
  - intros [name Hn].
    apply patternSectionId_shape in Hn as (Hne & Hup & ws & Hws & ->).
    destruct name as [|u name]; [congruence|]. simpl in Hup.
    apply andb_true_iff in Hup as [Hu _]. apply isUpper_not_lower in Hu.
    split; [|split; [|apply Hdot]].
    + simpl. rewrite Hu. reflexivity.
    + simpl. rewrite Hu. reflexivity.
  - intros [t Ht].
    pose proof (proj1 (Htype t) Ht) as (Hne & Hlow & ws & Hws & E).
    split; [|rewrite E; apply Hdot].
    destruct (cmd.patternMarkupTypeBlockStart line) as [t'|] eqn:Es; [|reflexivity].
    exfalso.
    destruct (proj1 (Hstart t') eq_refl)
      as (Hne' & Hlow' & hy & ws' & Hhy & Hlen & Hws' & E').
    rewrite E in E'. injection E' as E'.
    assert (E2 : t +:+ ws = t' +:+ hy +:+ ws') by exact E'.
    assert (Hspan : Go.span Go.isLower (t +:+ ws) = Go.span Go.isLower (t' +:+ hy +:+ ws'))
      by (rewrite E2; reflexivity).
    rewrite !span_app in Hspan; try assumption.
    + injection Hspan as -> ->. destruct hy as [|c hy]; [simpl in Hlen; lia|].
      simpl in Hws, Hhy. apply andb_true_iff in Hws as [Hc _].
      apply andb_true_iff in Hhy as [Hc' _].
      apply isReSpace_not_hyphen in Hc. congruence.
    + destruct hy as [|c hy]; [simpl in Hlen; lia|]. simpl in Hhy |- *.
      apply andb_true_iff in Hhy as [Hc _]. apply isHyphen_not_lower. assumption.
    + destruct ws as [|c ws]; [exact I|]. simpl in Hws.
      apply andb_true_iff in Hws as [Hc _]. apply isReSpace_not_lower. assumption.
  - intros [t Ht]. eapply blockStart_not_end. eassumption.
Qed.

Lemma patterns_exclusive_witness :
  cmd.patternMarkupType ".FROM " = None
  /\ cmd.patternMarkupTypeBlockStart ".FROM " = None
  /\ cmd.patternMarkupTypeBlockEnd ".FROM " = false.
Proof.
  apply (proj1 (patterns_exclusive ".FROM ")). exists "FROM". reflexivity.
Defined.

(** ** [convertMarkup] *)

Section convertMarkup_properties.

Variable Config : config.Config.
Variable Execute : string -> string -> string -> option string.

Lemma lookup_Z_drop (a : list string) (i : nat) (s : string) :
  a !! i = Some s -> drop i a = s :: drop (S i) a.
Proof.
  revert i. induction a as [|x a IH]; intros [|i] H; try discriminate.
  - injection H as ->. reflexivity.
  - simpl. apply IH. exact H.
Qed.

Lemma convertMarkup_loop_plain (a : list string) : forall fuel i b,
  Forall (fun s => cmd.patternMarkupTypeBlockStart s = None) a ->
  (length a - i <= fuel)%nat ->
  cmd.convertMarkup_loop Config Execute fuel a (Z.of_nat i) b
  = Some (Returns {| cmd.written := cmd.written b +:+ linesWithLF (drop i a);
                     cmd.calls := cmd.calls b |}).
Proof.
  induction fuel as [|fuel IH]; intros i b Hplain Hfuel.
  - simpl. rewrite Nat2Z.id.
    rewrite lookup_ge_None_2, drop_ge by lia. simpl.
    rewrite append_nil_r_s. destruct b; reflexivity.
  - simpl. rewrite Nat2Z.id. destruct (a !! i) as [s|] eqn:E.
    + rewrite (lookup_Z_drop _ _ _ E). unfold cmd.convertMarkup_body.
      rewrite Forall_forall in Hplain.
      rewrite (Hplain s) by (eapply list_elem_of_lookup_2; eassumption).
      change (mret ?x) with (Returns x). cbv beta iota.
      replace (Z.of_nat i + 1) with (Z.of_nat (S i)) by lia.
      rewrite IH by (try assumption; try (apply Forall_forall; assumption); lia).
      simpl. rewrite !append_assoc_s. reflexivity.
    + apply lookup_ge_None in E. rewrite drop_ge by lia. simpl.
      rewrite append_nil_r_s. destruct b; reflexivity.
Qed.

(** Two or more lines none of which starts a markup block are written
    one after the other, each followed by a line feed, and no converter
    is called. *)
Theorem convertMarkup_plain (a : list string) :
  (2 <= length a)%nat ->
  Forall (fun s => cmd.patternMarkupTypeBlockStart s = None) a ->
  cmd.convertMarkup Config Execute a
  = Some (Returns {| cmd.written := linesWithLF a; cmd.calls := [] |}).
Proof.
  intros Hlen Hplain. unfold cmd.convertMarkup.
  destruct a as [|s [|s' a]]; [simpl in Hlen; lia..|].
  exact (convertMarkup_loop_plain (s :: s' :: a) _ 0%nat
           {| cmd.written := EmptyString; cmd.calls := [] |} Hplain
           (Nat.le_sub_l _ _)).
Qed.

Lemma findBlockEnd_found (rest : list string) : forall x e,
  cmd.findBlockEnd x rest = e -> e <> -1 -> 0 <= x ->
  exists k l, e = x + Z.of_nat k /\ rest !! k = Some l
              /\ cmd.patternMarkupTypeBlockEnd l = true.
Proof.
  induction rest as [|l rest IH]; intros x e He Hne Hx; simpl in He.
  - congruence.
  - destruct (cmd.patternMarkupTypeBlockEnd l) eqn:El.
    + exists O, l. split; [lia|]. auto.
    + destruct (IH _ _ He Hne) as (k & l' & -> & Hk & Hl'); [lia|].
      exists (S k), l'. split; [lia|]. auto.
Qed.

Lemma slice_ok {A} (a : list A) (lo hi : Z) :
  0 <= lo <= hi -> hi <= Go.len a -> exists r, Go.slice a lo hi = Returns r.
Proof.
  intros H1 H2. unfold Go.slice.
  destruct (0 <=? lo) eqn:E1; [|apply Z.leb_gt in E1; lia].
  destruct (lo <=? hi) eqn:E2; [|apply Z.leb_gt in E2; lia].
  destruct (hi <=? Go.len a) eqn:E3; [|apply Z.leb_gt in E3; lia].
  simpl. eauto.
Qed.

Lemma slice_panics {A} (a : list A) (lo hi : Z) :
  Go.slice a lo hi = Panics -> ~ (0 <= lo <= hi /\ hi <= Go.len a).
Proof.
  intros H [H1 H2]. destruct (slice_ok a lo hi H1 H2) as [r Hr]. congruence.
Qed.

(** The body of the loop panics only at a block-start line whose very
    next line ends the block, when a converter is found for its type. *)
Lemma convertMarkup_body_panics (a : list string) (i : nat) (s : string)
    (b : cmd.writer) :
  a !! i = Some s ->
  cmd.convertMarkup_body Config Execute a (Z.of_nat i) s b = Panics ->
  exists t c e,
    cmd.patternMarkupTypeBlockStart s = Some t
    /\ markup.NewConverter t Config = Value c
    /\ a !! S i = Some e /\ cmd.patternMarkupTypeBlockEnd e = true.
Proof.
  intros Hs. unfold cmd.convertMarkup_body.
  destruct (cmd.patternMarkupTypeBlockStart s) as [t|] eqn:Et; [|discriminate].
  rewrite Nat2Z.id, (lookup_Z_drop _ _ _ Hs).
  pose proof (lookup_lt_Some _ _ _ Hs) as Hlt.
  remember (cmd.findBlockEnd (Z.of_nat i) (s :: drop (S i) a)) as blockEnd eqn:Ef.
  symmetry in Ef. destruct (Z.eqb blockEnd (-1)) eqn:Ee; cbn [negb].
  - destruct (slice_ok a (Z.of_nat i) (Go.len a)) as [r Hr];
      [unfold Go.len; lia | lia | unfold Go.slice_from; rewrite Hr; discriminate].
  - apply Z.eqb_neq in Ee.
    destruct (findBlockEnd_found _ _ _ Ef Ee) as (k & l & Ek & Hk & Hl); [lia|].
    destruct k as [|k].
    { injection Hk as <-. rewrite (blockStart_not_end _ _ Et) in Hl. discriminate. }
    simpl in Hk. rewrite lookup_drop in Hk.
    pose proof (lookup_lt_Some _ _ _ Hk) as Hlt'.
    destruct (slice_ok a (Z.of_nat i) blockEnd) as [block Hblock];
      [lia | unfold Go.len; lia |].
    destruct (markup.NewConverter t Config) as [c|] eqn:Ec;
      [|rewrite Hblock; discriminate].
    destruct (Go.slice a (Z.of_nat i + 1) (blockEnd - 1)) as [inner|] eqn:Ei.
    + simpl. destruct (markup.Convert _ _ _); [discriminate|].
      rewrite Hblock. discriminate.
    + intros _. apply slice_panics in Ei. exists t, c, l.
      assert (k = O) as ->.
      { destruct k; [reflexivity|]. exfalso. apply Ei. unfold Go.len. lia. }
      rewrite Nat.add_0_r in Hk. auto.
Qed.

Lemma convertMarkup_loop_panics (a : list string) : forall fuel i b,
  cmd.convertMarkup_loop Config Execute fuel a (Z.of_nat i) b = Some Panics ->
  exists j s t c e,
    a !! j = Some s /\ cmd.patternMarkupTypeBlockStart s = Some t
    /\ markup.NewConverter t Config = Value c
    /\ a !! S j = Some e /\ cmd.patternMarkupTypeBlockEnd e = true.
Proof.
  induction fuel as [|fuel IH]; intros i b; simpl; rewrite Nat2Z.id.
  - destruct (a !! i); discriminate.
  - destruct (a !! i) as [s|] eqn:E; [|discriminate].
    destruct (cmd.convertMarkup_body Config Execute a (Z.of_nat i) s b)
      as [[i' b']|] eqn:Eb.
    + pose proof (convertMarkup_body_index _ _ _ _ _ _ _ _ (Nat2Z.is_nonneg i) Eb).
      replace (i' + 1) with (Z.of_nat (Z.to_nat (i' + 1))) by lia. apply IH.
    + intros _. destruct (convertMarkup_body_panics _ _ _ _ E Eb)
        as (t & c & e & H). exists i, s, t, c, e. tauto.
Qed.

Lemma convertMarkup_panics_inv (a : list string) :
  cmd.convertMarkup Config Execute a = Some Panics ->
  exists j s t c e,
    a !! j = Some s /\ cmd.patternMarkupTypeBlockStart s = Some t
    /\ markup.NewConverter t Config = Value c
    /\ a !! S j = Some e /\ cmd.patternMarkupTypeBlockEnd e = true.
Proof.
  unfold cmd.convertMarkup. destruct a as [|s [|s' a]]; [discriminate..|].
  apply (convertMarkup_loop_panics _ _ 0).
Qed.


End convertMarkup_properties.

Lemma convertMarkup_plain_witness :
  cmd.convertMarkup example.mdConfig example.upperExecute ["Dear Sir"; "bye"]
  = Some (Returns {| cmd.written := linesWithLF ["Dear Sir"; "bye"];
                     cmd.calls := [] |}).
Proof.
  apply convertMarkup_plain; [simpl; lia | repeat constructor].
Defined.


Section no_converter_configured.

Variable Config : config.Config.
Variable Execute : string -> string -> string -> option string.

Hypothesis no_converter :
  forall t, markup.NewConverter t Config = Error (ErrNoConverter t).

Lemma convertMarkup_body_calls (a : list string) (i i' : Z) (s : string)
    (b b' : cmd.writer) :
  cmd.convertMarkup_body Config Execute a i s b = Returns (i', b') ->
  cmd.calls b' = cmd.calls b.
Proof.
  unfold cmd.convertMarkup_body.
  destruct (cmd.patternMarkupTypeBlockStart s) as [t|]; [|intros [= _ <-]; reflexivity].
  rewrite no_converter.
  destruct (negb _).
  - destruct (Go.slice a i _); simpl; [intros [= _ <-]; reflexivity | discriminate].
  - destruct (Go.slice_from a i); simpl; [intros [= _ <-]; reflexivity | discriminate].
Qed.

Lemma convertMarkup_loop_calls (a : list string) : forall fuel i b w,
  cmd.convertMarkup_loop Config Execute fuel a i b = Some (Returns w) ->
  cmd.calls w = cmd.calls b.
Proof.
  induction fuel as [|fuel IH]; intros i b w; simpl.
  - destruct (a !! Z.to_nat i); [discriminate | intros [= <-]; reflexivity].
  - destruct (a !! Z.to_nat i) as [s|]; [|intros [= <-]; reflexivity].
    destruct (cmd.convertMarkup_body Config Execute a i s b) as [[i' b']|] eqn:Eb;
      [|discriminate].
    intros H. rewrite (IH _ _ _ H). eapply convertMarkup_body_calls. eassumption.
Qed.

Lemma convertMarkup_returns_without_converter (a : list string) :
  exists w, cmd.convertMarkup Config Execute a = Some (Returns w)
            /\ cmd.calls w = [].
Proof.
  destruct (convertMarkup_total Config Execute a) as [[w|] Hw].
  - exists w. split; [assumption|].
    unfold cmd.convertMarkup in Hw. destruct a as [|s [|s' a]].
    + injection Hw as <-. reflexivity.
    + injection Hw as <-. reflexivity.
    + apply convertMarkup_loop_calls in Hw. exact Hw.
  - apply convertMarkup_panics_inv in Hw
      as (j & s & t & c & e & _ & _ & Hc & _).
    rewrite no_converter in Hc. discriminate.
Qed.

End no_converter_configured.

(** When the registry resolves no markup type (no entry with a command
    and no wildcard), [convertMarkup] returns on every input, without a
    panic, and calls no converter. *)
Theorem convertMarkup_without_converter (Config : config.Config)
    (Execute : string -> string -> string -> option string) (a : list string) :
  (forall t, markup.NewConverter t Config = Error (ErrNoConverter t)) ->
  exists w, cmd.convertMarkup Config Execute a = Some (Returns w)
            /\ cmd.calls w = [].
Proof. intros H. apply convertMarkup_returns_without_converter. exact H. Qed.

Lemma convertMarkup_without_converter_witness :
  exists w,
    cmd.convertMarkup {| config.MarkupConverters := ∅ |} example.upperExecute
      ["plain"; ".md--"; "--"; "plain2"] = Some (Returns w)
    /\ cmd.calls w = [].
Proof.
  apply convertMarkup_without_converter. intros t. reflexivity.
Defined.

(** ** [contentToTemplateInput] *)

Section contentToTemplateInput_properties.

Variable Config : config.Config.
Variable Execute : string -> string -> string -> option string.

Lemma sectionToTemplateInput_total (k : string) (v : BrfLines) :
  is_Some (cmd.sectionToTemplateInput Config Execute k v).
Proof.
  unfold cmd.sectionToTemplateInput.
  destruct (cmd.trimSurroundingEmptyLines v) as [core|]; [|eauto].
  destruct (negb _); [eauto|].
  destruct core as [|v0 v1]; [eauto|].
  destruct (cmd.patternMarkupType v0).
  - destruct (markup.NewConverter _ _); [|eauto].
    destruct (markup.Convert _ _ _); eauto.
  - destruct (convertMarkup_total Config Execute (v0 :: v1)) as [[w|] ->]; eauto.
Qed.

Lemma sectionToTemplateInput_blank (k : string) (v : BrfLines) :
  Forall blank v -> cmd.sectionToTemplateInput Config Execute k v = Some Panics.
Proof.
  intros Hb. unfold cmd.sectionToTemplateInput.
  rewrite trim_blank_panics by assumption. reflexivity.
Qed.

Lemma sectionToTemplateInput_field (k : string) (v core : BrfLines) :
  k <> "CONTENT" -> cmd.trimSurroundingEmptyLines v = Returns core ->
  cmd.sectionToTemplateInput Config Execute k v
  = Some (Returns (Go.Replace cmd.utfCharReplacer (Go.Join core cmd.texBreak))).
Proof.
  intros Hk Hv. unfold cmd.sectionToTemplateInput. rewrite Hv.
  apply String.eqb_neq in Hk. rewrite Hk. reflexivity.
Qed.

Lemma contentToTemplateInput_inv (brf : parser.Brf) :
  match cmd.contentToTemplateInput Config Execute brf with
  | Some (Returns r) =>
      forall k,
        r !! k = (parser.Sections brf !! k
                  ≫= fun v => returned (cmd.sectionToTemplateInput Config Execute k v))
        /\ forall v, parser.Sections brf !! k = Some v ->
           exists s, cmd.sectionToTemplateInput Config Execute k v = Some (Returns s)
  | Some Panics =>
      exists k v, parser.Sections brf !! k = Some v
                  /\ cmd.sectionToTemplateInput Config Execute k v = Some Panics
  | None => False
  end.
Proof.
  unfold cmd.contentToTemplateInput.
  apply (map_fold_weak_ind
           (fun (acc : option (outcome (gmap string string)))
                (m : gmap string BrfLines) =>
              match acc with
              | Some (Returns r) =>
                  forall k,
                    r !! k = (m !! k
                              ≫= fun v => returned
                                   (cmd.sectionToTemplateInput Config Execute k v))
                    /\ forall v, m !! k = Some v ->
                       exists s, cmd.sectionToTemplateInput Config Execute k v
                                 = Some (Returns s)
              | Some Panics =>
                  exists k v, m !! k = Some v
                              /\ cmd.sectionToTemplateInput Config Execute k v
                                 = Some Panics
              | None => False
              end)).
  - intros k. rewrite !lookup_empty. split; [reflexivity | discriminate].
  - intros i x m acc Hi IH. destruct acc as [[r|]|]; [| |contradiction].
    + destruct (sectionToTemplateInput_total i x) as [[s|] Hs]; rewrite Hs.
      * intros k. destruct (decide (i = k)) as [<-|Hne].
        -- rewrite !lookup_insert_eq. simpl. rewrite Hs.
           split; [reflexivity|]. intros v [= <-]. eauto.
        -- rewrite !lookup_insert_ne by assumption. apply IH.
      * exists i, x. rewrite lookup_insert_eq. auto.
    + destruct IH as (k & v & Hk & Hp). exists k, v. split; [|assumption].
      rewrite lookup_insert_ne; [assumption|]. congruence.
Qed.

End contentToTemplateInput_properties.

(** [contentToTemplateInput] panics as soon as one section of the
    document has no line with content (a marker directly followed by
    another marker or by the end of the file, for instance). *)
Theorem contentToTemplateInput_empty_section (Config : config.Config)
    (Execute : string -> string -> string -> option string)
    (brf : parser.Brf) (k : string) (v : BrfLines) :
  parser.Sections brf !! k = Some v -> Forall blank v ->
  cmd.contentToTemplateInput Config Execute brf = Some Panics.
Proof.
  intros Hk Hb.
  pose proof (contentToTemplateInput_inv Config Execute brf) as H.
  destruct (cmd.contentToTemplateInput Config Execute brf) as [[r|]|];
    [|reflexivity|contradiction].
  destruct (proj2 (H k) v Hk) as [s Hs].
  rewrite sectionToTemplateInput_blank in Hs by assumption. discriminate.
Qed.

Lemma contentToTemplateInput_empty_section_witness :
  cmd.contentToTemplateInput example.mdConfig example.upperExecute
    {| parser.Lines := [".DATE"; ".FROM"; "me"];
       parser.Sections := {[ "DATE" := []; "FROM" := ["me"] ]} |}
  = Some Panics.
Proof.
  apply (contentToTemplateInput_empty_section _ _ _ "DATE" []);
    [reflexivity | constructor].
Defined.

(** When [contentToTemplateInput] returns, the result has exactly the
    section names as keys, and under every name other than CONTENT the
    lines of the section without the blank lines around them, joined by
    a LaTeX line break and passed through [utfCharReplacer]. *)
Theorem contentToTemplateInput_fields (Config : config.Config)
    (Execute : string -> string -> string -> option string)
    (brf : parser.Brf) (r : gmap string string) :
  cmd.contentToTemplateInput Config Execute brf = Some (Returns r) ->
  dom r = dom (parser.Sections brf)
  /\ forall k v, parser.Sections brf !! k = Some v -> k <> "CONTENT" ->
     exists core,
       cmd.trimSurroundingEmptyLines v = Returns core
       /\ r !! k = Some (Go.Replace cmd.utfCharReplacer
                           (Go.Join core cmd.texBreak)).
Proof.
  intros Hr.
  pose proof (contentToTemplateInput_inv Config Execute brf) as H.
  rewrite Hr in H. split.
  - apply set_eq. intros k. rewrite !elem_of_dom.
    destruct (H k) as [Hk Hs]. rewrite Hk.
    destruct (parser.Sections brf !! k) as [v|]; simpl.
    + destruct (Hs v eq_refl) as [s ->]. split; eauto.
    + split; intros [? ?]; discriminate.
  - intros k v Hv Hne. destruct (H k) as [Hk Hs]. rewrite Hk, Hv. simpl.
    destruct (cmd.trimSurroundingEmptyLines v) as [core|] eqn:Ev.
    + exists core. split; [reflexivity|].
      rewrite (sectionToTemplateInput_field _ _ _ _ core Hne Ev). reflexivity.
    + destruct (Hs v Hv) as [s Hsv].
      unfold cmd.sectionToTemplateInput in Hsv. rewrite Ev in Hsv. discriminate.
Qed.

Lemma contentToTemplateInput_fields_witness :
  dom ({[ "FROM" := "me"; "DATE" := "today" ]} : gmap string string)
  = dom (parser.Sections example.letterBrf)
  /\ forall k v, parser.Sections example.letterBrf !! k = Some v ->
     k <> "CONTENT" ->
     exists core,
       cmd.trimSurroundingEmptyLines v = Returns core
       /\ ({[ "FROM" := "me"; "DATE" := "today" ]} : gmap string string) !! k
          = Some (Go.Replace cmd.utfCharReplacer (Go.Join core cmd.texBreak)).
Proof.
  apply (contentToTemplateInput_fields example.mdConfig example.upperExecute).
  vm_compute. reflexivity.
Defined.

(** ** [utfCharReplacer] *)

Lemma HasPrefix_split (p : string) : forall s,
  Go.HasPrefix s p = true -> exists post, s = p +:+ post.
Proof.
  induction p as [|c p IH]; intros s H.
  - exists s. reflexivity.
  - destruct s as [|d s]; [discriminate|]. simpl in H.
    destruct (Ascii.eqb c d) eqn:E; [|discriminate].
    apply Ascii.eqb_eq in E as ->. destruct (IH _ H) as [post ->].
    exists post. reflexivity.
Qed.

Lemma occursIn_tail (p : string) (c : ascii) (s : string) :
  occursIn p s -> occursIn p (String c s).
Proof. intros (pre & post & ->). exists (String c pre), post. reflexivity. Qed.

Lemma find_utfCharReplacer (c : ascii) (r : string) :
  Go.HasPrefix (String c r) thinSpaceBytes = false ->
  List.find (fun p => Go.HasPrefix (String c r) (fst p)) cmd.utfCharReplacer
  = if Ascii.eqb "_" c then Some ("_", "\string_")
    else if Ascii.eqb "^" c then Some ("^", "\string^")
    else None.
Proof.
  intros H. unfold cmd.utfCharReplacer.
  change (Go.bytes [195; 162; 226; 130; 172; 194; 175]%N) with thinSpaceBytes.
  cbn [List.find fst]. rewrite H.
  change (Go.HasPrefix (String c r) "_") with (if Ascii.eqb "_" c then true else false).
  change (Go.HasPrefix (String c r) "^") with (if Ascii.eqb "^" c then true else false).
  destruct (Ascii.eqb "_" c); [reflexivity|].
  destruct (Ascii.eqb "^" c); reflexivity.
Qed.

Lemma Replacer_loop_escapes : forall n s,
  (String.length s <= n)%nat -> ~ occursIn thinSpaceBytes s ->
  Go.Replacer_loop n cmd.utfCharReplacer s = texEscapeAll s.
Proof.
  induction n as [|n IH]; intros s Hn Hs.
  - destruct s; [reflexivity | simpl in Hn; lia].
  - destruct s as [|c r]; [reflexivity|].
    change (Go.Replacer_loop (S n) cmd.utfCharReplacer (String c r))
      with (match List.find (fun p => Go.HasPrefix (String c r) (fst p))
                    cmd.utfCharReplacer with
            | Some (old, new) =>
                new +:+ Go.Replacer_loop n cmd.utfCharReplacer
                          (Go.string_drop (String.length old) (String c r))
            | None => String c (Go.Replacer_loop n cmd.utfCharReplacer r)
            end).
    assert (Hr : ~ occursIn thinSpaceBytes r)
      by (intros H; apply Hs, occursIn_tail, H).
    assert (Hp : Go.HasPrefix (String c r) thinSpaceBytes = false).
    { destruct (Go.HasPrefix (String c r) thinSpaceBytes) eqn:E; [|reflexivity].
      exfalso. apply Hs. apply HasPrefix_split in E as [post E].
      exists EmptyString, post. exact E. }
    rewrite (find_utfCharReplacer _ _ Hp).
    change (texEscapeAll (String c r)) with (texEscape c +:+ texEscapeAll r).
    unfold texEscape. rewrite (Ascii.eqb_sym c "_"), (Ascii.eqb_sym c "^").
    simpl in Hn.
    destruct (Ascii.eqb "_" c); [|destruct (Ascii.eqb "^" c)].
    + change (Go.string_drop (String.length "_") (String c r)) with r.
      rewrite IH by (assumption || lia). reflexivity.
    + change (Go.string_drop (String.length "^") (String c r)) with r.
      rewrite IH by (assumption || lia). reflexivity.
    + rewrite IH by (assumption || lia). reflexivity.
Qed.

(** On a text in which the first old string of [utfCharReplacer] does
    not occur, the replacer writes every underscore as [\string_] and
    every caret as [\string^] and leaves all other bytes as they are;
    that first old string itself becomes [\,]. *)
Theorem utfCharReplacer_escapes (s : string) :
  ~ occursIn thinSpaceBytes s ->
  Go.Replace cmd.utfCharReplacer s = texEscapeAll s
  /\ Go.Replace cmd.utfCharReplacer (thinSpaceBytes +:+ s) = "\," +:+ texEscapeAll s.
Proof.
  intros Hs. split.
  - apply Replacer_loop_escapes; [lia | assumption].
  - unfold Go.Replace. rewrite length_append_s.
    change (String.length thinSpaceBytes) with 7%nat.
    change (7 + String.length s)%nat with (S (6 + String.length s)).
    change (thinSpaceBytes +:+ s)
      with (String (Go.byte 195) (Go.bytes [162; 226; 130; 172; 194; 175]%N +:+ s)).
    change (Go.Replacer_loop (S (6 + String.length s)) cmd.utfCharReplacer
              (String (Go.byte 195) (Go.bytes [162; 226; 130; 172; 194; 175]%N +:+ s)))
      with ("\," +:+ Go.Replacer_loop (6 + String.length s) cmd.utfCharReplacer s).
    rewrite Replacer_loop_escapes by (assumption || lia). reflexivity.
Qed.

Lemma utfCharReplacer_escapes_witness :
  Go.Replace cmd.utfCharReplacer "a_b^c" = texEscapeAll "a_b^c"
  /\ Go.Replace cmd.utfCharReplacer (thinSpaceBytes +:+ "a_b^c")
     = "\," +:+ texEscapeAll "a_b^c".
Proof.
  apply utfCharReplacer_escapes.
  intros (pre & post & E).
  assert (H : Go.all (fun c => negb (Ascii.eqb c (Go.byte 195))) "a_b^c" = true)
    by reflexivity.
  rewrite E in H. clear E.
  induction pre as [|c pre IH]; [discriminate H|].
  change (String c pre +:+ thinSpaceBytes +:+ post)
    with (String c (pre +:+ thinSpaceBytes +:+ post)) in H.
  simpl in H. apply andb_true_iff in H as [_ H]. exact (IH H).
Defined.

(** ** More on the address file *)

Lemma step_keeps_open (text : string) (st st' : address.state) :
  address.step text st = Value st' ->
  (is_Some (address.curAddress st') <->
   is_Some (address.curAddress st) \/ is_Some (addressId text))
  /\ (forall id, is_Some (address.senderAddresses st' !! id) <->
        is_Some (address.senderAddresses st !! id) \/ addressId text = Some id).
Proof.
  intros Hstep. destruct (step_cases text) as [Ec|[(id & Ea)|(Ec & Ea)]].
  - rewrite step_content_None in Hstep by assumption. injection Hstep as <-.
    assert (Ha : addressId text = None) by (unfold addressId; rewrite Ec; reflexivity).
    rewrite Ha. split; [|intros id]; split; auto; intros [H|H]; auto;
      try discriminate; destruct H; discriminate.
  - rewrite (step_addressId _ _ _ Ea) in Hstep. injection Hstep as <-. simpl.
    rewrite Ea. split; [split; eauto|].
    intros id'. destruct (decide (id = id')) as [->|Hne].
    + rewrite lookup_insert_eq. split; eauto.
    + rewrite lookup_insert_ne by assumption. split; [auto|].
      intros [H|H]; [assumption | congruence].
  - rewrite Ea. destruct (address.curAddress st) as [cur|] eqn:Ecur.
    + destruct (keyValue text) as [[k v]|] eqn:Ek.
      * rewrite (step_keyValue _ _ _ _ _ Ek Ecur) in Hstep.
        injection Hstep as <-. simpl. rewrite Ecur.
        split; [split; eauto|]. intros id. split; [auto|].
        intros [H|H]; [assumption | discriminate].
      * pose proof (step_malformed text st Ec Ea Ek) as He.
        rewrite Hstep in He. discriminate.
    + rewrite step_closed in Hstep by assumption. discriminate.
Qed.

Lemma scanLines_keys (lines : list string) : forall st st',
  address.scanLines lines st = Value st' ->
  forall id, is_Some (address.senderAddresses st' !! id) <->
    is_Some (address.senderAddresses st !! id)
    \/ exists text, text ∈ lines /\ addressId text = Some id.
Proof.
  induction lines as [|t lines IH]; intros st st' Hscan id.
  - injection Hscan as <-. split; [auto|].
    intros [H|(text & Hin & _)]; [assumption|]. inversion Hin.
  - simpl in Hscan. destruct (address.step t st) as [st1|] eqn:Es; [|discriminate].
    rewrite (IH _ _ Hscan), (proj2 (step_keeps_open _ _ _ Es)).
    split.
    + intros [[H|H]|(text & Hin & Ha)]; [auto | right | right].
      * exists t. split; [left | assumption].
      * exists text. split; [right; assumption | assumption].
    + intros [H|(text & Hin & Ha)]; [auto|].
      inversion Hin; subst; [auto|]. right. eauto.
Qed.

(** When [ReadFromFile] returns a map, its keys are exactly the
    identifiers declared by the [address:] lines of the file. *)
Theorem ReadFromFile_keys (lines : list string)
    (M : gmap string (gmap string BrfLines)) (id : string) :
  address.ReadFromFile lines = Value M ->
  (is_Some (M !! id) <-> exists text, text ∈ lines /\ addressId text = Some id).
Proof.
  unfold address.ReadFromFile.
  destruct (address.scanLines lines address.initial) as [st|] eqn:E; [|discriminate].
  intros [= <-]. rewrite lookup_fmap, fmap_is_Some, (scanLines_keys _ _ _ E).
  simpl. rewrite lookup_empty. split; [|auto].
  intros [[? H]|H]; [discriminate | assumption].
Qed.

Lemma ReadFromFile_keys_witness :
  is_Some (example.senders !! "me") <->
  exists text, text ∈ example.senderList /\ addressId text = Some "me".
Proof.
  apply ReadFromFile_keys. vm_compute. reflexivity.
Defined.




(** ** More on the sections of a document *)

(** Every section [CreateBrf] returns is a run of consecutive lines of
    the document, and none of its lines is a section marker. *)
Theorem CreateBrf_bodies (lines : BrfLines) (brf : parser.Brf)
    (name : string) (body : BrfLines) :
  parser.CreateBrf lines = Returns brf ->
  parser.Sections brf !! name = Some body ->
  Forall (fun l => parser.patternSectionId l = None) body
  /\ exists pre post, lines = pre ++ body ++ post.
Proof.
  intros Hbrf Hbody.
  destruct (CreateBrf_sectionsUpTo lines) as (brf' & Hbrf' & _ & Hranges & _).
  rewrite Hbrf in Hbrf'. injection Hbrf' as <-.
  apply Hranges in Hbody as (i & j & [Hm Ho Hb He Hl] & ->).
  unfold linesBetween. split.
  - apply Forall_lookup. intros k l Hk.
    apply lookup_take_Some in Hk as [Hk Hlt]. rewrite lookup_drop in Hk.
    destruct (parser.patternSectionId l) as [n|] eqn:Ep; [|reflexivity].
    exfalso. apply (Hb (S i + k)%nat n); [lia|]. exists l. auto.
  - exists (take (S i) lines), (drop (j - S i) (drop (S i) lines)).
    rewrite take_drop, take_drop. reflexivity.
Qed.

Lemma CreateBrf_bodies_witness :
  Forall (fun l => parser.patternSectionId l = None) ["today"]
  /\ exists pre post, example.letter = pre ++ ["today"] ++ post.
Proof.
  apply (CreateBrf_bodies example.letter example.letterBrf "DATE").
  - vm_compute. reflexivity.
  - reflexivity.
Defined.

(** ** More on [NewConverter] *)

Lemma ReplaceAll_not_empty (s old new : string) :
  s <> EmptyString -> new <> EmptyString ->
  Go.ReplaceAll s old new <> EmptyString.
Proof.
  intros Hs Hnew. destruct s as [|c r]; [congruence|].
  unfold Go.ReplaceAll.
  change (String.length (String c r)) with (S (String.length r)).
  cbn [Go.ReplaceAll_loop].
  destruct (Go.HasPrefix (String c r) old); [|discriminate].
  destruct new; [congruence | discriminate].
Qed.

(** A converter returned by [NewConverter] is for the requested markup
    type, and its command is not empty when the type is not empty. *)
Theorem NewConverter_converter (t : string) (cfg : config.Config)
    (c : markup.Converter) :
  markup.NewConverter t cfg = Value c ->
  markup.markupType c = t
  /\ (t <> EmptyString -> markup.converterCmd c <> EmptyString).
Proof.
  unfold markup.NewConverter.
  destruct (String.eqb (config.index _ t) EmptyString) eqn:Et; simpl.
  - destruct (String.eqb (config.index _ "*") EmptyString) eqn:Ew; simpl;
      [discriminate|].
    intros [= <-]. simpl. split; [reflexivity|]. intros Ht.
    apply ReplaceAll_not_empty; [|assumption].
    apply String.eqb_neq. assumption.
  - intros [= <-]. simpl. split; [reflexivity|]. intros _.
    apply String.eqb_neq. assumption.
Qed.

Lemma NewConverter_converter_witness :
  markup.markupType
    {| markup.markupType := "rst"; markup.converterCmd := "pandoc -f rst -t latex" |}
  = "rst"
  /\ ("rst" <> EmptyString ->
      markup.converterCmd
        {| markup.markupType := "rst";
           markup.converterCmd := "pandoc -f rst -t latex" |} <> EmptyString).
Proof.
  apply (NewConverter_converter "rst" example.pandocConfig). reflexivity.
Defined.

(** ** The default registry *)

Section default_registry.

Variable LookPath : string -> string.

Lemma lookPaths_three (a b c k : string) :
  config.index (config.lookPaths LookPath [a; b; c]) k
  = if decide (c = k) then LookPath c
    else if decide (b = k) then LookPath b
    else if decide (a = k) then LookPath a
    else EmptyString.
Proof.
  unfold config.lookPaths, config.index. simpl.
  rewrite !lookup_insert. repeat case_decide; try reflexivity.
Qed.

Lemma default_without_pandoc :
  LookPath "pandoc" = EmptyString ->
  config.findDefaultMarkupConverters LookPath = {[ "adoc" := EmptyString ]}.
Proof.
  intros Hp. unfold config.findDefaultMarkupConverters.
  rewrite !lookPaths_three. simpl. rewrite Hp. simpl. reflexivity.
Qed.

Lemma default_with_pandoc :
  LookPath "pandoc" <> EmptyString ->
  config.index (config.findDefaultMarkupConverters LookPath) "*"
  = "pandoc -f %m -t latex"
  /\ forall t, t <> "asciidoc" -> t <> "adoc" -> t <> "*" ->
     config.index (config.findDefaultMarkupConverters LookPath) t = EmptyString.
Proof.
  intros Hp. apply String.eqb_neq in Hp.
  unfold config.findDefaultMarkupConverters.
  rewrite !lookPaths_three. simpl. rewrite Hp. simpl.
  split.
  - unfold config.index at 1. rewrite lookup_insert_eq. reflexivity.
  - intros t H1 H2 H3. unfold config.index at 1.
    rewrite !lookup_insert_ne by congruence.
    destruct (negb _); [|destruct (negb _)];
      rewrite ?lookup_insert_ne by congruence; rewrite lookup_empty; reflexivity.
Qed.

End default_registry.

(** With the registry [findDefaultMarkupConverters] builds when pandoc
    is not found, [NewConverter] resolves no markup type at all, also
    not asciidoc when asciidoctor or asciidoc is installed. *)
Theorem default_registry_without_pandoc (LookPath : string -> string) (t : string) :
  LookPath "pandoc" = EmptyString ->
  markup.NewConverter t
    {| config.MarkupConverters := config.findDefaultMarkupConverters LookPath |}
  = Error (ErrNoConverter t).
Proof.
  intros Hp. unfold markup.NewConverter. simpl.
  rewrite default_without_pandoc by assumption.
  unfold config.index. destruct (decide (t = "adoc")) as [->|Hne].
  - reflexivity.
  - rewrite lookup_singleton_ne by congruence. reflexivity.
Qed.

Lemma default_registry_without_pandoc_witness :
  markup.NewConverter "asciidoc"
    {| config.MarkupConverters :=
         config.findDefaultMarkupConverters
           (fun e => if String.eqb e "asciidoctor" then "/usr/bin/asciidoctor"
                     else EmptyString) |}
  = Error (ErrNoConverter "asciidoc").
Proof. apply default_registry_without_pandoc. reflexivity. Defined.

(** With the registry built when pandoc is found, [NewConverter]
    resolves every markup type other than asciidoc, adoc and the
    wildcard name itself to the command [pandoc -f <type> -t latex]. *)
Theorem default_registry_with_pandoc (LookPath : string -> string) (t : string) :
  LookPath "pandoc" <> EmptyString ->
  t <> "asciidoc" -> t <> "adoc" -> t <> "*" ->
  markup.NewConverter t
    {| config.MarkupConverters := config.findDefaultMarkupConverters LookPath |}
  = Value {| markup.markupType := t;
             markup.converterCmd := "pandoc -f " +:+ t +:+ " -t latex" |}.
Proof.
  intros Hp H1 H2 H3. unfold markup.NewConverter. simpl.
  destruct (default_with_pandoc LookPath Hp) as [Hw Ht].
  rewrite (Ht t H1 H2 H3), Hw.
  change (Value {| markup.markupType := t;
                   markup.converterCmd :=
                     Go.ReplaceAll ("pandoc -f " +:+ "%m" +:+ " -t latex") "%m" t |}
          = Value {| markup.markupType := t;
                     markup.converterCmd := "pandoc -f " +:+ t +:+ " -t latex" |}).
  unfold Go.ReplaceAll.
  rewrite (ReplaceAll_loop_placeholder "pandoc -f " " -t latex" t)
    by (reflexivity || apply Nat.le_refl).
  reflexivity.
Qed.

Lemma default_registry_with_pandoc_witness :
  markup.NewConverter "markdown"
    {| config.MarkupConverters :=
         config.findDefaultMarkupConverters
           (fun e => if String.eqb e "pandoc" then "/usr/bin/pandoc"
                     else EmptyString) |}
  = Value {| markup.markupType := "markdown";
             markup.converterCmd := "pandoc -f " +:+ "markdown" +:+ " -t latex" |}.
Proof.
  apply default_registry_with_pandoc; discriminate.
Defined.

(** ** [findExecutable] *)

(** [findExecutable] returns the first entry of its list that
    [exec.LookPath] finds, an entry [$VAR] standing for the value of the
    environment variable, which is also what is returned; it returns the
    error when no entry is found; in both cases no entry before is
    empty. *)
Theorem findExecutable_first (Getenv LookPath : string -> string)
    (executables : list string) :
  let missing p := p <> EmptyString /\ LookPath (expandName Getenv p) = EmptyString in
  (forall name,
     config.findExecutable Getenv LookPath executables = Returns (Some name) <->
     exists pre e post,
       executables = pre ++ e :: post /\ Forall missing pre
       /\ e <> EmptyString /\ name = expandName Getenv e
       /\ LookPath name <> EmptyString)
  /\ (config.findExecutable Getenv LookPath executables = Returns None <->
      Forall missing executables).
Proof.
  intros missing. induction executables as [|x l [IHs IHn]].
  - split.
    + intros name. split; [discriminate|].
      intros (pre & e & post & E & _). destruct pre; discriminate.
    + split; [constructor | reflexivity].
  - assert (Hstep : x <> EmptyString ->
              config.findExecutable Getenv LookPath (x :: l)
              = if negb (String.eqb (LookPath (expandName Getenv x)) EmptyString)
                then Returns (Some (expandName Getenv x))
                else config.findExecutable Getenv LookPath l).
    { intros Hx. destruct x as [|c r]; [congruence|]. reflexivity. }
    split.
    + intros name. split.
      * intros H. destruct x as [|c r] eqn:Ex; [discriminate|]. rewrite <- Ex in *.
        assert (Hx : x <> EmptyString) by (subst; discriminate).
        rewrite (Hstep Hx) in H.
        destruct (String.eqb (LookPath (expandName Getenv x)) EmptyString) eqn:El;
          simpl in H.
        -- apply String.eqb_eq in El.
           apply IHs in H as (pre & e & post & -> & Hpre & He & Hn & Hl).
           exists (x :: pre), e, post. repeat split; auto.
           constructor; [split; assumption | assumption].
        -- apply String.eqb_neq in El. injection H as <-.
           exists [], x, l. repeat split; auto.
      * intros (pre & e & post & E & Hpre & He & -> & Hl).
        destruct pre as [|p pre]; simpl in E; injection E as -> ->.
        -- rewrite (Hstep He). apply String.eqb_neq in Hl. rewrite Hl. reflexivity.
        -- inversion Hpre as [|? ? [Hp Hm] Hpre']; subst.
           rewrite (Hstep Hp), Hm. simpl. apply IHs.
           exists pre, e, post. auto.
    + split.
      * intros H. destruct x as [|c r] eqn:Ex; [discriminate|]. rewrite <- Ex in *.
        assert (Hx : x <> EmptyString) by (subst; discriminate).
        rewrite (Hstep Hx) in H.
        destruct (String.eqb (LookPath (expandName Getenv x)) EmptyString) eqn:El;
          simpl in H; [|discriminate].
        apply String.eqb_eq in El. constructor; [split; assumption|].
        apply IHn. assumption.
      * intros H. inversion H as [|? ? [Hp Hm] Hl]; subst.
        rewrite (Hstep Hp), Hm. simpl. apply IHn. assumption.
Qed.

Lemma findExecutable_first_witness :
  config.findExecutable (fun _ => "vi")
    (fun e => if String.eqb e "vi" then "/usr/bin/vi" else EmptyString)
    (["nvim"; "vim"] ++ "$VISUAL" :: ["sensible-editor"])
  = Returns (Some "vi").
Proof.
  apply (proj1 (findExecutable_first _ _ _)).
  exists ["nvim"; "vim"], "$VISUAL", ["sensible-editor"].
  split; [reflexivity|].
  split; [repeat (constructor; [split; [discriminate | reflexivity]|]); constructor|].
  split; [discriminate|]. split; [reflexivity | discriminate].
Defined.

(** ** The tokenizer of command lines *)

Lemma Parse_step_plain (st : cmdline.state) (c : cmdline.rune) :
  plainRune c ->
  cmdline.step st c
  = {| cmdline.cmds := cmdline.cmds st; cmdline.tokens := cmdline.tokens st;
       cmdline.word := cmdline.word st ++ [c];
       cmdline.quoteChar := cmdline.quoteChar st |}.
Proof.
  intros (H1 & H2 & H3 & H4 & H5). unfold cmdline.step.
  apply N.eqb_neq in H1, H2, H3, H4, H5. rewrite H1, H2, H3, H4, H5.
  reflexivity.
Qed.

Lemma Parse_fold_plain (w : list cmdline.rune) : forall st,
  Forall plainRune w ->
  fold_left cmdline.step w st
  = {| cmdline.cmds := cmdline.cmds st; cmdline.tokens := cmdline.tokens st;
       cmdline.word := cmdline.word st ++ w;
       cmdline.quoteChar := cmdline.quoteChar st |}.
Proof.
  induction w as [|c w IH]; intros st Hw.
  - simpl. rewrite app_nil_r. destruct st; reflexivity.
  - inversion Hw as [|? ? Hc Hw']; subst. simpl.
    rewrite (Parse_step_plain _ _ Hc), IH by assumption. simpl.
    rewrite <- app_assoc. reflexivity.
Qed.

Lemma Parse_step_space (cs : list cmdline.Cmd) (ts : list (list cmdline.rune))
    (w : list cmdline.rune) :
  cmdline.step (cmdline.mkState cs ts w 0%N) cmdline.space
  = match w with
    | [] => cmdline.mkState cs ts [] 0%N
    | _ => cmdline.mkState cs (ts ++ [w]) [] 0%N
    end.
Proof. destruct w; reflexivity. Qed.

Lemma Parse_fold_words (ws : list (list cmdline.rune)) : forall cs ts,
  ws <> [] -> Forall plainWord ws ->
  fold_left cmdline.step (joinWords ws) (cmdline.mkState cs ts [] 0%N)
  = cmdline.mkState cs (ts ++ removelast ws) (List.last ws []) 0%N.
Proof.
  induction ws as [|w ws IH]; intros cs ts Hne Hws; [congruence|].
  inversion Hws as [|? ? [Hw Hplain] Hws']; subst.
  destruct ws as [|w2 ws].
  - simpl. rewrite Parse_fold_plain by assumption. simpl.
    rewrite app_nil_r. reflexivity.
  - change (joinWords (w :: w2 :: ws))
      with (w ++ [cmdline.space] ++ joinWords (w2 :: ws)).
    rewrite !fold_left_app, (Parse_fold_plain w) by assumption.
    cbn [fold_left cmdline.cmds cmdline.tokens cmdline.word cmdline.quoteChar app].
    rewrite Parse_step_space. destruct w as [|c w]; [congruence|].
    rewrite IH by (assumption || discriminate).
    change (removelast ((c :: w) :: w2 :: ws))
      with ((c :: w) :: removelast (w2 :: ws)).
    rewrite <- app_assoc. reflexivity.
Qed.

Lemma plainWords_last (ws : list (list cmdline.rune)) :
  ws <> [] -> Forall plainWord ws ->
  List.last ws [] <> [] /\ removelast ws ++ [List.last ws []] = ws.
Proof.
  intros Hne Hws. split.
  - assert (Hin : In (List.last ws []) ws).
    { clear Hws. induction ws as [|w [|w2 ws] IH]; [congruence | left; reflexivity |].
      right. apply IH. discriminate. }
    rewrite Forall_forall in Hws. apply list_elem_of_In, Hws in Hin. apply Hin.
  - symmetry. apply app_removelast_last. assumption.
Qed.

Lemma Parse_pipeline_from (cs : list (list (list cmdline.rune))) : forall cmds0,
  Forall (fun ws => ws <> [] /\ Forall plainWord ws) cs ->
  cmdline.finish
    (fold_left cmdline.step (joinPipes cs) (cmdline.mkState cmds0 [] [] 0%N))
  = cmds0 ++ map cmdline.newCmd cs.
Proof.
  induction cs as [|c cs IH]; intros cmds0 Hcs.
  - simpl. unfold cmdline.finish. simpl. rewrite app_nil_r. reflexivity.
  - inversion Hcs as [|? ? [Hne Hc] Hcs']; subst.
    destruct (plainWords_last c Hne Hc) as [Hlast Hsplit].
    destruct cs as [|c2 cs].
    + simpl. rewrite Parse_fold_words by assumption. unfold cmdline.finish. simpl.
      destruct (List.last c []) as [|x l] eqn:El; [congruence|]. simpl.
      rewrite Hsplit. destruct c; [congruence | reflexivity].
    + change (joinPipes (c :: c2 :: cs))
        with (joinWords c ++ [cmdline.space; cmdline.pipe; cmdline.space]
              ++ joinPipes (c2 :: cs)).
      rewrite !fold_left_app, (Parse_fold_words c) by assumption.
      cbn [fold_left]. rewrite Parse_step_space.
      destruct (List.last c []) as [|x l] eqn:El; [congruence|].
      simpl app at 1. rewrite Hsplit.
      change (cmdline.step (cmdline.mkState cmds0 c [] 0%N) cmdline.pipe)
        with (cmdline.mkState (cmds0 ++ [cmdline.newCmd c]) [] [] 0%N).
      rewrite Parse_step_space, IH by assumption.
      rewrite <- app_assoc. reflexivity.
Qed.

(** Commands written as words separated by one space, and separated
    from each other by a pipe symbol between two spaces, are read back
    by [Parse] as they were written: one [Cmd] per command, its first
    word as the name and the other words as the arguments. *)
Theorem Parse_pipeline (cs : list (list (list cmdline.rune))) :
  Forall (fun ws => ws <> [] /\ Forall plainWord ws) cs ->
  cmdline.Parse (joinPipes cs) = map cmdline.newCmd cs.
Proof. intros H. apply (Parse_pipeline_from cs []). assumption. Qed.

(** A pipe symbol that is not preceded by a space does not end the word
    before it: [Parse] then gives a command without a name, followed by
    a command whose name is the two words run together. *)
Theorem Parse_pipe_without_space (w1 w2 : list cmdline.rune) :
  plainWord w1 -> plainWord w2 ->
  cmdline.Parse (w1 ++ [cmdline.pipe] ++ w2)
  = [ {| cmdline.CmdName := []; cmdline.Args := [] |};
      {| cmdline.CmdName := w1 ++ w2; cmdline.Args := [] |} ].
Proof.
  intros [Hn1 H1] [Hn2 H2]. unfold cmdline.Parse.
  rewrite !fold_left_app, (Parse_fold_plain w1) by assumption.
  cbn [fold_left cmdline.cmds cmdline.tokens cmdline.word cmdline.quoteChar app].
  change (cmdline.step (cmdline.mkState [] [] w1 0%N) cmdline.pipe)
    with (cmdline.mkState [cmdline.newCmd []] [] w1 0%N).
  rewrite Parse_fold_plain by assumption. unfold cmdline.finish. simpl.
  destruct w1 as [|c w1]; [congruence|]. reflexivity.
Qed.

Lemma Parse_fold_blank (s : list cmdline.rune) : forall cs,
  Forall (fun c => c = cmdline.space \/ c = cmdline.tab) s ->
  fold_left cmdline.step s (cmdline.mkState cs [] [] 0%N)
  = cmdline.mkState cs [] [] 0%N.
Proof.
  induction s as [|c s IH]; intros cs Hs; [reflexivity|].
  inversion Hs as [|? ? Hc Hs']; subst. simpl.
  destruct Hc as [-> | ->]; apply IH; assumption.
Qed.

(** A command line of spaces and tabs only (the empty one included)
    gives no command at all. *)
Theorem Parse_blank (s : list cmdline.rune) :
  Forall (fun c => c = cmdline.space \/ c = cmdline.tab) s ->
  cmdline.Parse s = [].
Proof.
  intros Hs. unfold cmdline.Parse. rewrite Parse_fold_blank by assumption.
  reflexivity.
Qed.

Lemma Parse_fold_quoted (w : list cmdline.rune) : forall cs ts w0 q,
  q <> 0%N ->
  Forall (fun c => c <> cmdline.quote /\ c <> cmdline.doubleQuote) w ->
  fold_left cmdline.step w (cmdline.mkState cs ts w0 q)
  = cmdline.mkState cs ts (w0 ++ w) q.
Proof.
  induction w as [|c w IH]; intros cs ts w0 q Hq Hw.
  - simpl. rewrite app_nil_r. reflexivity.
  - inversion Hw as [|? ? [H1 H2] Hw']; subst. simpl.
    assert (Hstep : cmdline.step (cmdline.mkState cs ts w0 q) c
                    = cmdline.mkState cs ts (w0 ++ [c]) q).
    { unfold cmdline.step. simpl.
      apply N.eqb_neq in H1, H2, Hq. rewrite H1, H2, Hq. simpl.
      destruct (_ || _); [reflexivity|]. destruct (c =? cmdline.pipe)%N; reflexivity. }
    rewrite Hstep, IH by assumption. rewrite <- app_assoc. reflexivity.
Qed.

(** A text between two single quotes or two double quotes becomes one
    token, with its spaces, tabs and pipe symbols and without the
    quotes; a missing closing quote makes no difference. *)
Theorem Parse_quoted (q : cmdline.rune) (w : list cmdline.rune) :
  q = cmdline.quote \/ q = cmdline.doubleQuote ->
  w <> [] ->
  Forall (fun c => c <> cmdline.quote /\ c <> cmdline.doubleQuote) w ->
  cmdline.Parse ([q] ++ w ++ [q]) = [cmdline.newCmd [w]]
  /\ cmdline.Parse ([q] ++ w) = [cmdline.newCmd [w]].
Proof.
  intros Hq Hne Hw.
  assert (Hq0 : q <> 0%N) by (destruct Hq as [-> | ->]; discriminate).
  assert (Hopen : cmdline.step (cmdline.mkState [] [] [] 0%N) q
                  = cmdline.mkState [] [] [] q)
    by (destruct Hq as [-> | ->]; reflexivity).
  assert (Hclose : cmdline.step (cmdline.mkState [] [] w q) q
                   = cmdline.mkState [] [] w 0%N).
  { unfold cmdline.step. simpl. rewrite N.eqb_refl.
    destruct Hq as [-> | ->]; reflexivity. }
  unfold cmdline.Parse. split.
  - rewrite !fold_left_app. cbn [fold_left]. rewrite Hopen.
    rewrite (Parse_fold_quoted w) by assumption. simpl app. rewrite Hclose.
    unfold cmdline.finish. destruct w; [congruence | reflexivity].
  - rewrite !fold_left_app. cbn [fold_left]. rewrite Hopen.
    rewrite (Parse_fold_quoted w) by assumption. simpl app.
    unfold cmdline.finish. destruct w; [congruence | reflexivity].
Qed.

Lemma Parse_step_no_quotes (st : cmdline.state) (c : cmdline.rune) :
  let clean l := Forall (fun c => c <> cmdline.quote /\ c <> cmdline.doubleQuote) l in
  Forall clean (tokensOf (cmdline.cmds st)) -> Forall clean (cmdline.tokens st) ->
  clean (cmdline.word st) ->
  Forall clean (tokensOf (cmdline.cmds (cmdline.step st c)))
  /\ Forall clean (cmdline.tokens (cmdline.step st c))
  /\ clean (cmdline.word (cmdline.step st c)).
Proof.
  intros clean Hc Ht Hw.
  assert (Hnew : forall ts, Forall clean ts ->
            Forall clean (tokensOf (cmdline.cmds st ++ [cmdline.newCmd ts]))).
  { intros ts Hts. unfold tokensOf. rewrite map_app, concat_app.
    apply Forall_app. split; [exact Hc|]. simpl. rewrite app_nil_r.
    destruct ts as [|t [|t2 ts]]; simpl.
    - repeat constructor.
    - inversion Hts; subst. repeat constructor. assumption.
    - exact Hts. }
  unfold cmdline.step.
  destruct ((c =? cmdline.quote)%N || (c =? cmdline.doubleQuote)%N) eqn:Eq; [simpl; auto|].
  apply orb_false_iff in Eq as [E1 E2]. apply N.eqb_neq in E1, E2.
  assert (Happ : clean (cmdline.word st ++ [c])).
  { apply Forall_app. split; [assumption|]. repeat constructor; assumption. }
  destruct (_ || _).
  - destruct (negb _); [simpl; auto|].
    destruct (0 <? _)%nat; simpl; auto.
    split; [assumption|]. split; [|constructor].
    apply Forall_app. split; [assumption|]. repeat constructor. assumption.
  - destruct (c =? cmdline.pipe)%N; [|simpl; auto].
    destruct (negb _); simpl; auto.
Qed.

(** No token [Parse] returns (command name or argument) holds a single
    or a double quote, whatever the command line is. *)
Theorem Parse_no_quotes (s : list cmdline.rune) :
  Forall (Forall (fun c => c <> cmdline.quote /\ c <> cmdline.doubleQuote))
    (tokensOf (cmdline.Parse s)).
Proof.
  unfold cmdline.Parse.
  set (clean := Forall (fun c => c <> cmdline.quote /\ c <> cmdline.doubleQuote)).
  assert (Hinv : forall st,
            Forall clean (tokensOf (cmdline.cmds st)) ->
            Forall clean (cmdline.tokens st) -> clean (cmdline.word st) ->
            Forall clean (tokensOf (cmdline.finish (fold_left cmdline.step s st)))).
  { induction s as [|c s IH]; intros st Hc Ht Hw.
    - simpl. unfold cmdline.finish.
      set (ts := if (0 <? length (cmdline.word st))%nat
                 then cmdline.tokens st ++ [cmdline.word st] else cmdline.tokens st).
      assert (Hts : Forall clean ts).
      { subst ts. destruct (0 <? _)%nat; [|assumption].
        apply Forall_app. split; [assumption|]. repeat constructor. assumption. }
      destruct (0 <? length ts)%nat; [|assumption].
      unfold tokensOf. rewrite map_app, concat_app.
      apply Forall_app. split; [exact Hc|]. simpl. rewrite app_nil_r.
      destruct ts as [|t [|t2 ts']]; simpl.
      + repeat constructor.
      + inversion Hts; subst. repeat constructor. assumption.
      + exact Hts.
    - simpl. destruct (Parse_step_no_quotes st c Hc Ht Hw) as (H1 & H2 & H3).
      apply IH; assumption. }
  apply Hinv; constructor.
Qed.

Ltac plain_word :=
  split; [discriminate
         | repeat (constructor; [repeat split; discriminate|]); constructor].

Lemma Parse_pipeline_witness :
  cmdline.Parse
    (joinPipes [ [runesOf "asciidoctor"; runesOf "-b"; runesOf "docbook5"; runesOf "-"];
                 [runesOf "pandoc"; runesOf "-f"; runesOf "docbook"] ])
  = [ {| cmdline.CmdName := runesOf "asciidoctor";
         cmdline.Args := [runesOf "-b"; runesOf "docbook5"; runesOf "-"] |};
      {| cmdline.CmdName := runesOf "pandoc";
         cmdline.Args := [runesOf "-f"; runesOf "docbook"] |} ].
Proof.
  apply (Parse_pipeline
           [ [runesOf "asciidoctor"; runesOf "-b"; runesOf "docbook5"; runesOf "-"];
             [runesOf "pandoc"; runesOf "-f"; runesOf "docbook"] ]).
  repeat (constructor;
          [split; [discriminate | repeat (constructor; [plain_word|]); constructor]|]).
  constructor.
Defined.

Lemma Parse_pipe_without_space_witness :
  cmdline.Parse (runesOf "cat" ++ [cmdline.pipe] ++ runesOf "wc")
  = [ {| cmdline.CmdName := []; cmdline.Args := [] |};
      {| cmdline.CmdName := runesOf "cat" ++ runesOf "wc"; cmdline.Args := [] |} ].
Proof. apply Parse_pipe_without_space; plain_word. Defined.

Lemma Parse_blank_witness :
  cmdline.Parse [cmdline.space; cmdline.tab; cmdline.space] = [].
Proof.
  apply Parse_blank.
  repeat (constructor; [first [left; reflexivity | right; reflexivity]|]).
  constructor.
Defined.

Lemma Parse_quoted_witness :
  cmdline.Parse ([cmdline.quote] ++ runesOf "two | words" ++ [cmdline.quote])
  = [cmdline.newCmd [runesOf "two | words"]]
  /\ cmdline.Parse ([cmdline.quote] ++ runesOf "two | words")
     = [cmdline.newCmd [runesOf "two | words"]].
Proof.
  apply Parse_quoted; [left; reflexivity | discriminate |].
  repeat (constructor; [split; discriminate|]). constructor.
Defined.

(** ** [DeriveFilePath] *)

Lemma string_take_app (a b : string) :
  Go.string_take (String.length a) (a +:+ b) = a.
Proof.
  induction a as [|c a IH]; [destruct b; reflexivity|].
  change (String c (Go.string_take (String.length a) (a +:+ b)) = String c a).
  f_equal. exact IH.
Qed.

Lemma string_drop_app (a b : string) :
  Go.string_drop (String.length a) (a +:+ b) = b.
Proof. induction a as [|c a IH]; [reflexivity | exact IH]. Qed.

Lemma lastIndexByte_without (s : string) (c : ascii) : forall i found,
  without c s -> utils.lastIndexByte i s c found = found.
Proof.
  unfold without. induction s as [|d s IH]; intros i found H; [reflexivity|].
  simpl in H. apply andb_true_iff in H as [Hd Hs]. apply negb_true_iff in Hd.
  simpl. rewrite Hd. apply IH. assumption.
Qed.

Lemma lastIndexByte_last (a b : string) (c : ascii) : forall i found,
  without c b ->
  utils.lastIndexByte i (a +:+ String c b) c found
  = i + Z.of_nat (String.length a).
Proof.
  induction a as [|d a IH]; intros i found Hb.
  - change (utils.lastIndexByte i (EmptyString +:+ String c b) c found)
      with (utils.lastIndexByte (i + 1) b c (if Ascii.eqb c c then i else found)).
    rewrite Ascii.eqb_refl, lastIndexByte_without by assumption. simpl. lia.
  - change (utils.lastIndexByte i (String d a +:+ String c b) c found)
      with (utils.lastIndexByte (i + 1) (a +:+ String c b) c
              (if Ascii.eqb d c then i else found)).
    rewrite IH by assumption. simpl String.length. lia.
Qed.

Lemma Split_dir_file (dir file : string) :
  dirPart dir -> without "/" file -> utils.Split (dir +:+ file) = (dir, file).
Proof.
  intros [-> | [d ->]] Hf; unfold utils.Split.
  - change (EmptyString +:+ file) with file.
    rewrite lastIndexByte_without by assumption. reflexivity.
  - rewrite append_assoc_s.
    change ("/" +:+ file) with (String "/" file).
    rewrite lastIndexByte_last by assumption.
    replace (Z.to_nat (0 + Z.of_nat (String.length d) + 1))
      with (String.length (d +:+ "/")) by (rewrite length_append_s; simpl; lia).
    change (String "/" file) with ("/" +:+ file). rewrite <- append_assoc_s.
    rewrite string_take_app, string_drop_app. reflexivity.
Qed.

Lemma get_app_r (a b : string) (j : nat) :
  String.get (String.length a + j) (a +:+ b) = String.get j b.
Proof. induction a as [|c a IH]; [reflexivity | exact IH]. Qed.

Lemma get_all (p : ascii -> bool) (s : string) : forall j c,
  Go.all p s = true -> String.get j s = Some c -> p c = true.
Proof.
  induction s as [|d s IH]; intros j c Hs Hj; [discriminate|].
  simpl in Hs. apply andb_true_iff in Hs as [Hd Hs].
  destruct j as [|j]; simpl in Hj; [congruence | eapply IH; eassumption].
Qed.

Lemma get_lt (s : string) : forall j,
  (j < String.length s)%nat -> exists c, String.get j s = Some c.
Proof.
  induction s as [|d s IH]; intros j Hj; [simpl in Hj; lia|].
  destruct j as [|j]; [simpl; eauto|]. apply IH. simpl in Hj. lia.
Qed.

(** The scan of [Ext] passes over a tail without dot and slash. *)
Lemma Ext_loop_tail (pre suf : string) : forall k,
  without "." suf -> without "/" suf -> (k <= String.length suf)%nat ->
  utils.Ext_loop (String.length pre + String.length suf) (pre +:+ suf)
  = utils.Ext_loop (String.length pre + (String.length suf - k)) (pre +:+ suf).
Proof.
  intros k Hdot Hslash. induction k as [|k IH]; intros Hk.
  - rewrite Nat.sub_0_r. reflexivity.
  - rewrite IH by lia.
    replace (String.length suf - k)%nat with (S (String.length suf - S k)) by lia.
    rewrite Nat.add_succ_r. cbn [utils.Ext_loop].
    rewrite get_app_r.
    destruct (get_lt suf (String.length suf - S k)) as [c Hc]; [lia|].
    rewrite Hc.
    pose proof (get_all _ _ _ _ Hslash Hc) as H1.
    pose proof (get_all _ _ _ _ Hdot Hc) as H2.
    apply negb_true_iff in H1, H2. rewrite H1, H2. reflexivity.
Qed.

Lemma Ext_extension (name ext : string) :
  without "." ext -> without "/" ext ->
  utils.Ext (name +:+ "." +:+ ext) = "." +:+ ext.
Proof.
  intros Hdot Hslash. unfold utils.Ext.
  rewrite <- append_assoc_s, length_append_s.
  rewrite (Ext_loop_tail (name +:+ ".") ext (String.length ext)) by (assumption || lia).
  rewrite Nat.sub_diag, Nat.add_0_r, length_append_s.
  replace (String.length name + String.length ".")%nat
    with (S (String.length name)) by (simpl; lia).
  cbn [utils.Ext_loop]. rewrite append_assoc_s.
  rewrite <- (Nat.add_0_r (String.length name)) at 1.
  rewrite get_app_r. simpl String.get. cbv iota beta.
  change (Ascii.eqb "." "/") with false. change (Ascii.eqb "." ".") with true.
  cbv iota. apply string_drop_app.
Qed.

Lemma Ext_none (file : string) :
  without "." file -> without "/" file -> utils.Ext file = EmptyString.
Proof.
  intros Hdot Hslash. unfold utils.Ext.
  pose proof (Ext_loop_tail EmptyString file (String.length file) Hdot Hslash
                (Nat.le_refl _)) as H.
  change (EmptyString +:+ file) with file in H.
  change (String.length EmptyString) with O in H. rewrite !Nat.add_0_l in H.
  rewrite H, Nat.sub_diag. reflexivity.
Qed.

(** [DeriveFilePath] keeps the directory of the path and replaces the
    extension of the file, the text after its last dot: the new name is
    the file name up to that dot, a dot, and the new extension without
    its leading dot, joined to the directory; a file name without a dot
    gets the new extension appended. *)
Theorem DeriveFilePath_extension (Clean : string -> string)
    (dir name ext newExt : string) :
  dirPart dir -> without "/" name -> without "." ext -> without "/" ext ->
  let new := if Go.HasPrefix newExt "." then Go.string_drop 1 newExt else newExt in
  utils.DeriveFilePath Clean (dir +:+ name +:+ "." +:+ ext) newExt
  = utils.Join Clean dir (name +:+ "." +:+ new)
  /\ (without "." name ->
      utils.DeriveFilePath Clean (dir +:+ name) newExt
      = utils.Join Clean dir (name +:+ "." +:+ new)).
Proof.
  intros Hdir Hname Hdot Hslash new. unfold utils.DeriveFilePath. split.
  - rewrite Split_dir_file; [|assumption|].
    + rewrite Ext_extension by assumption.
      replace (String.length (name +:+ "." +:+ ext) - String.length ("." +:+ ext))%nat
        with (String.length name)
        by (rewrite !length_append_s; simpl; lia).
      rewrite string_take_app. reflexivity.
    + unfold without in *. clear -Hname Hslash.
      induction name as [|c name IH]; [exact Hslash|].
      simpl in Hname. apply andb_true_iff in Hname as [Hc Hn].
      change (Go.all (fun d => negb (Ascii.eqb d "/"))
                (String c (name +:+ "." +:+ ext)) = true).
      simpl. rewrite Hc. apply IH. assumption.
  - intros Hnodot. rewrite Split_dir_file by assumption.
    rewrite Ext_none by assumption. simpl String.length.
    rewrite Nat.sub_0_r.
    rewrite <- (append_nil_r_s name) at 2. rewrite string_take_app. reflexivity.
Qed.

Lemma DeriveFilePath_extension_witness :
  utils.DeriveFilePath (fun p => p) ("/my/path/" +:+ "file" +:+ "." +:+ "brf") ".tex"
  = utils.Join (fun p => p) "/my/path/" ("file" +:+ "." +:+ "tex")
  /\ (without "." "file" ->
      utils.DeriveFilePath (fun p => p) ("/my/path/" +:+ "file") ".tex"
      = utils.Join (fun p => p) "/my/path/" ("file" +:+ "." +:+ "tex")).
Proof.
  apply (DeriveFilePath_extension (fun p => p) "/my/path/" "file" "brf" ".tex");
    try reflexivity.
  right. exists "/my/path". reflexivity.
Defined.

(** The leading dot of the new extension is optional: [tex] and [.tex]
    give the same path. *)
Theorem DeriveFilePath_dot (Clean : string -> string) (filePath newExt : string) :
  Go.HasPrefix newExt "." = false ->
  utils.DeriveFilePath Clean filePath ("." +:+ newExt)
  = utils.DeriveFilePath Clean filePath newExt.
Proof.
  intros H. unfold utils.DeriveFilePath.
  destruct (utils.Split filePath) as [dir file]. rewrite H. reflexivity.
Qed.

Lemma DeriveFilePath_dot_witness :
  utils.DeriveFilePath (fun p => p) "/my/path/file.brf" ("." +:+ "tex")
  = utils.DeriveFilePath (fun p => p) "/my/path/file.brf" "tex".
Proof. apply DeriveFilePath_dot. reflexivity. Defined.
